(** * A shallow embedding of [internal/mkbench/write.go] (Pebble's
    write-throughput benchmark summariser) and proofs of its specification.

    Conventions of the model.
    - Go [int] is a 64-bit two's complement integer: a [Z] with the
      wrap-around of [+] written out ([wrap64]); Go [/] on ints truncates
      toward zero ([Z.quot]).
    - Go [float64] is Rocq's primitive IEEE-754 binary64 [float]; [math.Round]
      and the [%.2f] verb of [fmt] are written out on its exact value.
    - Go maps ([map[string]T]) are stdpp's [gmap string T]; a [range] over a
      map is a [map_fold], which fixes one of the iteration orders Go may use.
    - A Go panic (division by zero, index out of range) is the [RPanic]
      outcome of the result type [res]. *)

From Stdlib Require Import ZArith Lia String Ascii Floats Uint63 Sorted Permutation.
From stdpp Require Import base gmap strings list.

Open Scope Z_scope.

(* ------------------------------------------------------------------ *)
(** ** Go runtime helpers *)

Definition two63 : Z := 2 ^ 63.

(** Go [int] addition wraps modulo 2^64 into [-2^63, 2^63). *)
Definition wrap64 (z : Z) : Z := (z + two63) mod (2 * two63) - two63.

Definition int64_range (z : Z) : Prop := - two63 <= z < two63.

(** [math.Round]: round half away from zero; NaN, infinities, zeros and
    floats that are already integers are returned unchanged. *)
Definition go_round (x : float) : float :=
  match Prim2SF x with
  | S754_finite s m e =>
      if (0 <=? e)%Z then x
      else
        let d := 2 ^ (- e) in
        let q := Z.pos m / d in
        let r := Z.pos m mod d in
        let q' := if d <=? 2 * r then q + 1 else q in
        let f := PrimFloat.of_uint63 (Uint63.of_Z q') in
        if s then PrimFloat.opp f else f
  | _ => x
  end.

(** Decimal digits of a natural number ([fmt]'s [%d] without the sign). *)
Fixpoint digits_aux (fuel : nat) (n : Z) (acc : string) : string :=
  match fuel with
  | O => acc
  | S fuel' =>
      let acc' := String (ascii_of_nat (48 + Z.to_nat (n mod 10))) acc in
      if n <? 10 then acc' else digits_aux fuel' (n / 10) acc'
  end.

Definition digits (n : Z) : string :=
  digits_aux (S (Z.to_nat (Z.log2 n))) n EmptyString.

(** [%d] *)
Definition fmt_d (z : Z) : string :=
  if z <? 0 then String "-" (digits (- z)) else digits z.

(** [%v] on a [bool] *)
Definition fmt_v_bool (b : bool) : string := if b then "true" else "false".

(** The exact value [m * 2^e] times 100, rounded half to even (Go's
    [strconv] rounds the exact binary value to the requested precision). *)
Definition hundredths (m e : Z) : Z :=
  if 0 <=? e then m * 100 * 2 ^ e
  else
    let d := 2 ^ (- e) in
    let q := (m * 100) / d in
    let r := (m * 100) mod d in
    if d <? 2 * r then q + 1
    else if 2 * r <? d then q
    else if Z.even q then q else q + 1.

Definition two_digits (n : Z) : string :=
  String (ascii_of_nat (48 + Z.to_nat (n / 10)))
    (String (ascii_of_nat (48 + Z.to_nat (n mod 10))) EmptyString).

(** [%.2f] *)
Definition fmt_2f (x : float) : string :=
  match Prim2SF x with
  | S754_zero s => if s then "-0.00" else "0.00"
  | S754_infinity s => if s then "-Inf" else "+Inf"
  | S754_nan => "NaN"
  | S754_finite s m e =>
      let n := hundredths (Z.pos m) e in
      (if s then "-" else "") +:+ digits (n / 100) +:+ "." +:+ two_digits (n mod 100)
  end.

(* ------------------------------------------------------------------ *)
(** ** Data points and raw runs *)

(** [writePoint] *)
Record writePoint := mkWritePoint {
  elapsedSecs : Z;
  opsSec : Z;
  passed : bool;
  size_ : Z;         (* [size], a uint64 *)
  levels : Z;
  writeAmp : float
}.

(** [writePoint.formatCSV]: [fmt.Sprintf("%d,%d,%v,%d,%d,%.2f", ...)] *)
Definition writePoint_formatCSV (p : writePoint) : string :=
  fmt_d (elapsedSecs p) +:+ "," +:+ fmt_d (opsSec p) +:+ "," +:+
  fmt_v_bool (passed p) +:+ "," +:+ fmt_d (size_ p) +:+ "," +:+
  fmt_d (levels p) +:+ "," +:+ fmt_2f (writeAmp p).

(** [rawWriteRun] *)
Record rawWriteRun := mkRawWriteRun {
  points : list writePoint;
  split : Z   (* memoized *)
}.

(** *** The split search

    [findOptimalSplit] lives in [split.go], which is not part of the
    sources at hand. *)

(** Number of samples misclassified by the threshold [t]: a pass below [t]
    or a fail at or above [t]. *)
Definition misclassified (passes fails : list Z) (t : Z) : nat :=
  length (List.filter (fun p => p <? t) passes) +
  length (List.filter (fun f => t <=? f) fails).

(** The better of a candidate [c] and the best so far [cur]: fewer
    misclassified samples, or as many and lower. *)
Definition pick_split (passes fails : list Z) (c cur : Z) : Z :=
  let mc := misclassified passes fails c in
  let mcur := misclassified passes fails cur in
  if (mc <? mcur)%nat || ((mc =? mcur)%nat && (c <? cur)) then c else cur.

(** Scan the candidates, keeping the one with the fewest misclassified
    samples and, among equally good ones, the lowest. *)
Fixpoint best_split (passes fails : list Z) (cands : list Z) (cur : Z) : Z :=
  match cands with
  | [] => cur
  | c :: cs => best_split passes fails cs (pick_split passes fails c cur)
  end.

(** [t] is at least as good a threshold as [c]: fewer misclassified
    samples, or as many and not higher. *)
Definition no_worse (passes fails : list Z) (t c : Z) : Prop :=
  (misclassified passes fails t < misclassified passes fails c)%nat \/
  (misclassified passes fails t = misclassified passes fails c /\ t <= c).

(** Modelled from the spec: [findOptimalSplit] of [split.go] (§4.2): the
    threshold [t] is chosen from the pass and fail values so as to minimise
    the misclassified samples, the lowest among ties; with no fails it is
    the minimum of the passes, with no passes the maximum of the fails
    plus one. The spec says nothing for a run with no samples at all
    (it never reaches the reducer); the model returns 0 there. *)
Definition findOptimalSplit (passes fails : list Z) : Z :=
  match passes, fails with
  | [], [] => 0
  | [], f :: fs => fold_left Z.max fs f + 1
  | p :: ps, [] => fold_left Z.min ps p
  | p :: ps, _ :: _ => best_split passes fails (ps ++ fails) p
  end.

(** The partition loop of [opsPerSecSplit]. *)
Definition partition_points (pts : list writePoint) : list Z * list Z :=
  fold_left
    (fun acc p =>
       if passed p then (fst acc ++ [opsSec p], snd acc)
       else (fst acc, snd acc ++ [opsSec p]))
    pts ([], []).

(** [rawWriteRun.opsPerSecSplit] (pointer receiver): returns the split and
    the receiver with its memo field updated. *)
Definition rawWriteRun_opsPerSecSplit (r : rawWriteRun) : Z * rawWriteRun :=
  if 0 <? split r then (split r, r)
  else
    let '(passes, fails) := partition_points (points r) in
    let s := findOptimalSplit passes fails in
    (s, {| points := points r; split := s |}).

(** [rawWriteRun.writeAmp]: [r.points[len(r.points)-1].writeAmp]; an empty
    slice makes the index panic ([None]). *)
Definition rawWriteRun_writeAmp (r : rawWriteRun) : option float :=
  match last (points r) with
  | Some p => Some (writeAmp p)
  | None => None
  end.

(** [rawWriteRun.formatCSV]: each point's CSV followed by a newline, in a
    [bytes.Buffer]. *)
Definition rawWriteRun_formatCSV (r : rawWriteRun) : string :=
  fold_left (fun b p => b +:+ writePoint_formatCSV p +:+ "
") (points r) "".

(* ------------------------------------------------------------------ *)
(** ** Go library helpers on strings and slices *)

(** [strings.Split(s, sep)] for a one-character separator. *)
Fixpoint split_on (c : ascii) (s : string) : list string :=
  match s with
  | EmptyString => [""%string]
  | String a s' =>
      if Ascii.eqb a c then ""%string :: split_on c s'
      else match split_on c s' with
           | h :: t => String a h :: t
           | [] => [String a ""]
           end
  end.

(** [strings.Join] *)
Definition join (sep : string) (parts : list string) : string :=
  String.concat sep parts.

(** [filepath.Dir] on a clean relative path (the walker yields paths
    relative to the data directory, which are already clean): everything
    before the last separator, or ["."] when there is none. *)
Definition filepath_Dir (path : string) : string :=
  match removelast (split_on "/" path) with
  | [] => "."
  | parts => join "/" parts
  end.

(** Go's [sort] package: [sort.Strings] and [sort.Slice] run pdqsort,
    which sorts a slice of at most 12 elements by insertion sort: each
    element moves left past the elements it is [less] than. For keys that
    are pairwise distinct (map keys) every sort gives this result; for
    [sort.Slice] on longer slices with equal keys pdqsort may order the
    equal elements differently. *)
Fixpoint insert_by {A} (less : A -> A -> bool) (x : A) (l : list A) : list A :=
  match l with
  | [] => [x]
  | y :: t => if less x y then x :: y :: t else y :: insert_by less x t
  end.

(** [a] may precede [b] in a sorted slice: [b] is not less than [a]. *)
Definition sort_ord {A} (less : A -> A -> bool) (a b : A) : Prop := less b a = false.

Definition insertion_sort {A} (less : A -> A -> bool) (l : list A) : list A :=
  fold_left (fun acc x => insert_by less x acc) l [].

(** [sort.Strings] *)
Definition sort_Strings (l : list string) : list string :=
  insertion_sort String.ltb l.

(* ------------------------------------------------------------------ *)
(** ** Runs, workloads and summaries *)

(** [writeRunSummary] (JSON: name, date, opsSec, writeAmp, summaryPath) *)
Record writeRunSummary := mkWriteRunSummary {
  Name : string;
  Date : string;
  OpsSec : Z;
  WriteAmp : float;
  SummaryPath : string
}.

(** [writeRun] *)
Record writeRun := mkWriteRun {
  name : string;
  date : string;
  dir : string;
  rawRuns : gmap string rawWriteRun
}.

Definition summaryFilename : string := "summary.json".

(** [writeRun.summaryFilename] *)
Definition writeRun_summaryFilename (r : writeRun) : string :=
  join "-" (split_on "/" (dir r) ++ [summaryFilename]).

(** [float64(l)] for a map length. *)
Definition float_of_nat (n : nat) : float :=
  PrimFloat.of_uint63 (Uint63.of_Z (Z.of_nat n)).

(** The accumulation loop of [writeRun.summarize]:
    [sumOpsSec += rr.opsPerSecSplit(); sumWriteAmp += rr.writeAmp()];
    [rr] is a copy of the map value, so the memo is not stored back. *)
Definition summarize_sums (rawRuns : gmap string rawWriteRun) : option (Z * float) :=
  map_fold
    (fun _ rr acc =>
       match acc with
       | None => None
       | Some (sumOpsSec, sumWriteAmp) =>
           let s := fst (rawWriteRun_opsPerSecSplit rr) in
           match rawWriteRun_writeAmp rr with
           | None => None
           | Some wa => Some (wrap64 (sumOpsSec + s), PrimFloat.add sumWriteAmp wa)
           end
       end)
    (Some (0, PrimFloat.zero)) rawRuns.

(** [writeRun.summarize]; [None] is a panic (index out of range in
    [writeAmp], or the integer division by [l = 0]). *)
Definition writeRun_summarize (r : writeRun) : option writeRunSummary :=
  match summarize_sums (rawRuns r) with
  | None => None
  | Some (sumOpsSec, sumWriteAmp) =>
      let l := size (rawRuns r) in
      if (l =? 0)%nat then None
      else Some {| Name := name r;
                   Date := date r;
                   SummaryPath := writeRun_summaryFilename r;
                   OpsSec := Z.quot sumOpsSec (Z.of_nat l);
                   WriteAmp :=
                     PrimFloat.div
                       (go_round (PrimFloat.div (PrimFloat.mul (PrimFloat.of_uint63 100%uint63) sumWriteAmp)
                                                (float_of_nat l)))
                       (PrimFloat.of_uint63 100%uint63) |}
  end.

(** [cookedWriteRun] (JSON: opsSec, rawData) *)
Record cookedWriteRun := mkCookedWriteRun {
  cw_OpsSec : Z;
  Raw : string
}.

(** [writeRun.formatSummaryJSON], as the map it serialises: one entry per
    raw data file, each computed on a copy of the map value. *)
Definition writeRun_formatSummaryJSON (r : writeRun) : gmap string cookedWriteRun :=
  (fun data => {| cw_OpsSec := fst (rawWriteRun_opsPerSecSplit data);
                  Raw := rawWriteRun_formatCSV data |}) <$> rawRuns r.

(** A [writeWorkload] is its [days] map; [writeWorkloads] maps workload
    names to them. A [writeWorkloadSummary] is a list of summaries. *)
Abbreviation writeWorkload := (gmap string writeRun) (only parsing).
Abbreviation writeWorkloads := (gmap string (gmap string writeRun)) (only parsing).
Abbreviation writeWorkloadSummary := (list writeRunSummary) (only parsing).

(** Lines written to stderr. *)
Inductive diag :=
| DReadError (path : string)
| DParseError (line : string)
| DSkipCooked (pathRel wname day : string)
| DNameMismatch (nameInner wname line : string)
| DDurationError (line : string)
| DAddRawRun (wname day : string) (nPoints : nat) (path : string).

(** [writeLoader]; the directory paths are replaced by the file system
    model [world] below, stderr is kept in the loader. *)
Record writeLoader := mkWriteLoader {
  workloads : gmap string (gmap string writeRun);
  cooked : gset (string * string);
  cookedSummaries : gmap string (list writeRunSummary);
  stderr : list diag
}.

(** [newWriteLoader] *)
Definition newWriteLoader : writeLoader :=
  {| workloads := ∅; cooked := ∅; cookedSummaries := ∅; stderr := [] |}.

Definition log (l : writeLoader) (ds : list diag) : writeLoader :=
  {| workloads := workloads l; cooked := cooked l;
     cookedSummaries := cookedSummaries l; stderr := stderr l ++ ds |}.

(** Result of an operation that may fail with a Go [error] or panic. *)
Inductive go_error := ErrReadSummary | ErrUnmarshal.

Inductive res (A : Type) :=
| ROk (a : A)
| RErr (e : go_error)
| RPanic.
Arguments ROk {A} a.
Arguments RErr {A} e.
Arguments RPanic {A}.

(** Modelled from the spec: the JSON encoding of the top-level artifact
    ([prettyJSON] with [json.MarshalIndent], and [json.Unmarshal] when it is
    read back; [prettyJSON] is not in the sources at hand). The spec treats
    JSON printing as a deterministic serialisation of the summary map
    (§4.5, §6); the model stores in the file the map it serialises, so
    reading back a file written by this program yields the map written. A
    file that does not decode is [SummaryMalformed]. *)
Inductive summary_file :=
| SummaryMissing
| SummaryUnreadable
| SummaryMalformed
| SummaryStored (s : gmap string (list writeRunSummary)).

(** [loadCooked]: the loop populating [l.cooked]. *)
Definition cooked_pairs (summaries : gmap string (list writeRunSummary))
    (acc : gset (string * string)) : gset (string * string) :=
  map_fold
    (fun nm workloadSummary acc =>
       fold_left (fun acc runSummary => {[(nm, Date runSummary)]} ∪ acc)
         workloadSummary acc)
    acc summaries.

(** [writeLoader.loadCooked] *)
Definition loadCooked (f : summary_file) (l : writeLoader) : res writeLoader :=
  match f with
  | SummaryMissing => ROk l
  | SummaryUnreadable => RErr ErrReadSummary
  | SummaryMalformed => RErr ErrUnmarshal
  | SummaryStored summaries =>
      ROk {| workloads := workloads l;
             cooked := cooked_pairs summaries (cooked l);
             cookedSummaries := summaries;
             stderr := stderr l |}
  end.

(** [writeLoader.addRawRun] *)
Definition addRawRun (nm day path : string) (raw : rawWriteRun) (l : writeLoader) : writeLoader :=
  match points raw with
  | [] => l
  | pts =>
      let l := log l [DAddRawRun nm day (length pts) path] in
      let w := default ∅ (workloads l !! nm) in
      let r := match w !! day with
               | Some r => r
               | None => {| name := nm; date := day; dir := filepath_Dir path; rawRuns := ∅ |}
               end in
      let r := {| name := name r; date := date r; dir := dir r;
                  rawRuns := <[path := raw]> (rawRuns r) |} in
      {| workloads := <[nm := <[day := r]> w]> (workloads l);
         cooked := cooked l; cookedSummaries := cookedSummaries l;
         stderr := stderr l |}
  end.

(* ------------------------------------------------------------------ *)
(** ** Loading the raw data *)

(** The values [fmt.Sscanf(line, rawRunFmt, ...)] stores: name, ops/sec,
    pass, elapsed, size, levels, write-amp. *)
Record scanned := mkScanned {
  sc_name : string;
  sc_opsSec : Z;
  sc_passed : bool;
  sc_elapsed : string;
  sc_size : Z;
  sc_levels : Z;
  sc_writeAmp : float
}.

(** One input file as the walker and the decompressor deliver it: its path
    relative to the data directory; its decompressed bytes cut at each
    ['\n'] (the last piece is the text after the last ['\n'], empty when
    the file ends with one), or [None] when [os.Open] or [gzip.NewReader]
    failed; and whether the reader returns the file's last bytes together
    with [io.EOF] ([os.File] never does: it reports [io.EOF] on a later
    [Read]; the gzip and bzip2 readers may). *)
Record input_file := mkInputFile {
  pathRel : string;
  contents : option (list string);
  eof_with_data : bool
}.

(** [bufio.MaxScanTokenSize], the buffer limit of [bufio.NewScanner]. *)
Definition maxScanTokenSize : nat := 64 * 1024.

(** [bufio]'s [dropCR]: a final carriage return is dropped. *)
Definition dropCR (s : string) : string :=
  match rev (list_ascii_of_string s) with
  | c :: t => if Ascii.eqb c (ascii_of_nat 13) then string_of_list_ascii (rev t) else s
  | [] => s
  end.

(** The lines [for s.Scan()] yields with [bufio.ScanLines], from the pieces
    of the file between ['\n'] bytes. A line ended by ['\n'] is yielded
    when it fits in the buffer with its ['\n'], that is when it is shorter
    than [maxScanTokenSize]; a longer one makes [Scan] fail with
    [ErrTooLong], and nothing after it is read ([s.Err()] is not checked).
    The text after the last ['\n'] is a line when it is not empty; it may
    also fill the whole buffer when the reader reports [io.EOF] with the
    last bytes. *)
Fixpoint scan_tokens (eof_with_data : bool) (pieces : list string) : list string :=
  match pieces with
  | [] => []
  | [last] =>
      if String.eqb last "" then []
      else if (String.length last <? maxScanTokenSize)%nat ||
              (eof_with_data && (String.length last =? maxScanTokenSize)%nat)
      then [dropCR last] else []
  | line :: rest =>
      if (String.length line <? maxScanTokenSize)%nat
      then dropCR line :: scan_tokens eof_with_data rest else []
  end.

(** Per-file parsing state of the [walkFn] loop: [name], the points of [r],
    and the lines written to stderr. *)
Record scan_state := mkScanState {
  st_name : string;
  st_points : list writePoint;
  st_log : list diag
}.

Definition st_log_add (st : scan_state) (d : diag) : scan_state :=
  {| st_name := st_name st; st_points := st_points st; st_log := st_log st ++ [d] |}.

Section LoadRaw.

(** [fmt.Sscanf(line, rawRunFmt, ...)]: [Some] when it returns [n = 7]
    and no error. *)
Variable sscanf_rawRun : string -> option scanned.
(** [time.ParseDuration(elapsed)] followed by [int(secs.Seconds())]. *)
Variable parseDuration_secs : string -> option Z.

(** One iteration of the [for s.Scan()] loop of [walkFn]: [inl log] is
    the early [return nil] that skips a previously cooked file. *)
Definition scan_line (cookedSet : gset (string * string)) (day path : string)
    (line : string) (st : scan_state) : list diag + scan_state :=
  if negb (String.prefix "BenchmarkRaw" line) then inr st
  else
    match sscanf_rawRun line with
    | None => inr (st_log_add st (DParseError line))
    | Some sc =>
        let checked :=
          if String.eqb (st_name st) "" then
            let nm := sc_name sc in
            if bool_decide ((nm, day) ∈ cookedSet) then
              inl (st_log st ++ [DSkipCooked path nm day])
            else inr {| st_name := nm; st_points := st_points st; st_log := st_log st |}
          else if negb (String.eqb (st_name st) (sc_name sc)) then
            inr (st_log_add st (DNameMismatch (sc_name sc) (st_name st) line))
          else inr st in
        match checked with
        | inl lg => inl lg
        | inr st =>
            match parseDuration_secs (sc_elapsed sc) with
            | None => inr (st_log_add st (DDurationError line))
            | Some secs =>
                let p := {| elapsedSecs := secs; opsSec := sc_opsSec sc;
                            passed := sc_passed sc; size_ := sc_size sc;
                            levels := sc_levels sc; writeAmp := sc_writeAmp sc |} in
                inr {| st_name := st_name st; st_points := st_points st ++ [p];
                       st_log := st_log st |}
            end
        end
    end.

Fixpoint scan_lines (cookedSet : gset (string * string)) (day path : string)
    (lines : list string) (st : scan_state) : list diag + scan_state :=
  match lines with
  | [] => inr st
  | line :: rest =>
      match scan_line cookedSet day path line st with
      | inl lg => inl lg
      | inr st' => scan_lines cookedSet day path rest st'
      end
  end.

Definition scan_init : scan_state := {| st_name := ""; st_points := []; st_log := [] |}.

(** The [walkFn] closure of [writeLoader.loadRaw]. *)
Definition walkFn (l : writeLoader) (f : input_file) : writeLoader :=
  let parts := split_on "/" (pathRel f) in
  if (length parts <? 6)%nat then l
  else if negb (String.eqb (nth 2 parts "") "write") then l
  else
    let day := nth 0 parts "" in
    match contents f with
    | None => log l [DReadError (pathRel f)]
    | Some pieces =>
        match scan_lines (cooked l) day (pathRel f) (scan_tokens (eof_with_data f) pieces) scan_init with
        | inl lg => log l lg
        | inr st =>
            addRawRun (st_name st) day (pathRel f)
              {| points := st_points st; split := 0 |} (log l (st_log st))
        end
    end.

(** Modelled from the spec: the directory walker [walkDir] (not in the
    sources at hand) yields every regular file under the data directory,
    one after the other (§6); [files] lists them in the order it visits
    them, and [walkFn] never returns an error. *)
Definition loadRaw (files : list input_file) (l : writeLoader) : writeLoader :=
  fold_left walkFn files l.

End LoadRaw.

(* ------------------------------------------------------------------ *)
(** ** Writing the summaries *)

(** One iteration of the loop of [cookWriteSummary]:
    [summary = append(summary, w.days[day].summarize())]. *)
Definition cookWriteSummary_step (w : gmap string writeRun)
    (acc : option (list writeRunSummary)) (day : string) : option (list writeRunSummary) :=
  match acc with
  | None => None
  | Some summary =>
      match w !! day with
      | None => None
      | Some r =>
          match writeRun_summarize r with
          | None => None
          | Some s => Some (summary ++ [s])
          end
      end
  end.

(** [cookWriteSummary]; [None] is a panic of [summarize]. *)
Definition cookWriteSummary (w : gmap string writeRun) : option (list writeRunSummary) :=
  let days := sort_Strings (map fst (map_to_list w)) in
  fold_left (cookWriteSummary_step w) days (Some []).

(** [sort.Slice(existing, func(i, j) { existing[i].Date < existing[j].Date })] *)
Definition sort_by_Date (l : list writeRunSummary) : list writeRunSummary :=
  insertion_sort (fun a b => String.ltb (Date a) (Date b)) l.

(** The first loop of [cookSummary]: one new summary per workload. *)
Definition new_summaries (ws : gmap string (gmap string writeRun))
    : option (gmap string (list writeRunSummary)) :=
  map_fold
    (fun nm w acc =>
       match acc with
       | None => None
       | Some summary =>
           match cookWriteSummary w with
           | None => None
           | Some s => Some (<[nm := s]> summary)
           end
       end)
    (Some ∅) ws.

(** The mix-in loop of [cookSummary]. *)
Definition mix_cooked (summary cookedS : gmap string (list writeRunSummary))
    : gmap string (list writeRunSummary) :=
  map_fold
    (fun nm ck summary =>
       match summary !! nm with
       | None => <[nm := ck]> summary
       | Some existing => <[nm := sort_by_Date (existing ++ ck)]> summary
       end)
    summary cookedS.

(** [writeLoader.cookSummary]: the map written to the top-level file. *)
Definition cookSummary (l : writeLoader) : res (gmap string (list writeRunSummary)) :=
  match new_summaries (workloads l) with
  | None => RPanic
  | Some summary => ROk (mix_cooked summary (cookedSummaries l))
  end.

(** [writeLoader.cookWriteRunSummaries] with [outputWriteRunSummary]: each
    run's detail file, keyed by its file name in the summary directory. *)
Definition cookWriteRunSummaries (l : writeLoader)
    (files : gmap string (gmap string cookedWriteRun)) : gmap string (gmap string cookedWriteRun) :=
  map_fold
    (fun _ w files =>
       map_fold
         (fun _ r files => <[writeRun_summaryFilename r := writeRun_formatSummaryJSON r]> files)
         files w)
    files (workloads l).

(** The file system the command reads and writes: the top-level summary
    file, the per-run detail files, and stderr. Writes are assumed to
    succeed. *)
Record world := mkWorld {
  fs_summary : summary_file;
  fs_runs : gmap string (gmap string cookedWriteRun);
  fs_stderr : list diag
}.

(** [parseWrite] *)
Definition parseWrite (sscanf_rawRun : string -> option scanned)
    (parseDuration_secs : string -> option Z) (files : list input_file) (wd : world) : res world :=
  match loadCooked (fs_summary wd) newWriteLoader with
  | RErr e => RErr e
  | RPanic => RPanic
  | ROk l =>
      let l := loadRaw sscanf_rawRun parseDuration_secs files l in
      match cookSummary l with
      | RErr e => RErr e
      | RPanic => RPanic
      | ROk summary =>
          ROk {| fs_summary := SummaryStored summary;
                 fs_runs := cookWriteRunSummaries l (fs_runs wd);
                 fs_stderr := fs_stderr wd ++ stderr l |}
      end
  end.

(* ------------------------------------------------------------------ *)
(** ** [fmt.Sscanf] on [rawRunFmt] and [time.ParseDuration]

    The general results above are stated for any scanner and duration
    parser; the concrete examples use the following models of the two
    library calls. Spaces are the ASCII white-space characters. *)

Definition rawRunFmt : string :=
  "BenchmarkRaw%s %d ops/sec %v pass %s elapsed %d bytes %d levels %f writeAmp".

Definition is_digit (c : ascii) : bool :=
  (48 <=? nat_of_ascii c)%nat && (nat_of_ascii c <=? 57)%nat.

Definition digit_val (c : ascii) : Z := Z.of_nat (nat_of_ascii c - 48).

Definition is_space (c : ascii) : bool :=
  let n := nat_of_ascii c in (n =? 32)%nat || ((9 <=? n)%nat && (n <=? 13)%nat).

Fixpoint skip_spaces (s : list ascii) : list ascii :=
  match s with
  | c :: t => if is_space c then skip_spaces t else s
  | [] => []
  end.

Fixpoint span (p : ascii -> bool) (s : list ascii) : list ascii * list ascii :=
  match s with
  | c :: t => if p c then let '(a, b) := span p t in (c :: a, b) else ([], s)
  | [] => ([], [])
  end.

Definition digits_value (ds : list ascii) : Z :=
  fold_left (fun acc c => acc * 10 + digit_val c) ds 0.

(** A space in the format matches one or more spaces, or the end of input. *)
Definition fmt_space (s : list ascii) : option (list ascii) :=
  match s with
  | [] => Some []
  | c :: _ => if is_space c then Some (skip_spaces s) else None
  end.

(** Literal format text must match the input exactly. *)
Fixpoint fmt_lit (w s : list ascii) : option (list ascii) :=
  match w, s with
  | [], _ => Some s
  | a :: w', b :: s' => if Ascii.eqb a b then fmt_lit w' s' else None
  | _ :: _, [] => None
  end.

(** [%s]: skip spaces, then a non-empty run of non-spaces. *)
Definition scan_s (s : list ascii) : option (string * list ascii) :=
  match skip_spaces s with
  | [] => None
  | s' => let '(tok, rest) := span (fun c => negb (is_space c)) s' in
          Some (string_of_list_ascii tok, rest)
  end.

(** The token of [scanNumber]: digits and underscores, at least one;
    [strconv.ParseInt(tok, 10, 64)] then refuses the underscores. *)
Definition number_token (s : list ascii) : option (Z * list ascii) :=
  let '(tok, rest) := span (fun c => is_digit c || Ascii.eqb c "_") s in
  match tok with
  | [] => None
  | _ => if forallb is_digit tok then Some (digits_value tok, rest) else None
  end.

(** [%d] into an [int]. *)
Definition scan_d_int (s : list ascii) : option (Z * list ascii) :=
  match skip_spaces s with
  | [] => None
  | s' =>
      let '(neg, s'') := match s' with
                         | "-"%char :: t => (true, t)
                         | "+"%char :: t => (false, t)
                         | _ => (false, s')
                         end in
      match number_token s'' with
      | None => None
      | Some (v, rest) =>
          let v := if neg then - v else v in
          if (- two63 <=? v) && (v <? two63) then Some (v, rest) else None
      end
  end.

(** [%d] into a [uint64]: no sign. *)
Definition scan_d_uint (s : list ascii) : option (Z * list ascii) :=
  match skip_spaces s with
  | [] => None
  | s' =>
      match number_token s' with
      | None => None
      | Some (v, rest) => if v <? 2 * two63 then Some (v, rest) else None
      end
  end.

(** [%v] into a [bool] ([fmt]'s [scanBool]). *)
Definition scan_bool (s : list ascii) : option (bool * list ascii) :=
  let acc (cs : list ascii) (c : ascii) := existsb (Ascii.eqb c) cs in
  match skip_spaces s with
  | [] => None
  | c :: t =>
      if Ascii.eqb c "0" then Some (false, t)
      else if Ascii.eqb c "1" then Some (true, t)
      else if acc ["t"; "T"]%char c then
        match t with
        | r :: t' =>
            if acc ["r"; "R"]%char r then
              match t' with
              | u :: e :: t'' =>
                  if acc ["u"; "U"]%char u && acc ["e"; "E"]%char e then Some (true, t'')
                  else None
              | _ => None
              end
            else Some (true, t)
        | [] => Some (true, t)
        end
      else if acc ["f"; "F"]%char c then
        match t with
        | a :: t' =>
            if acc ["a"; "A"]%char a then
              match t' with
              | l :: s1 :: e :: t'' =>
                  if acc ["l"; "L"]%char l && acc ["s"; "S"]%char s1 && acc ["e"; "E"]%char e
                  then Some (false, t'') else None
              | _ => None
              end
            else Some (false, t)
        | [] => Some (false, t)
        end
      else Some (false, t)
  end.

(** [%f] into a [float64], on plain decimals [[+-]digits[.digits]] whose
    digits form an integer below 2^53 with at most 15 after the point (the
    benchmark prints the write-amp with [%f]); on these
    [strconv.ParseFloat] is the correctly rounded quotient below. Exponents,
    hexadecimal, [Inf] and [NaN] are not modelled ([None]). *)
Definition scan_f (s : list ascii) : option (float * list ascii) :=
  match skip_spaces s with
  | [] => None
  | s' =>
      let '(neg, s1) := match s' with
                        | "-"%char :: t => (true, t)
                        | "+"%char :: t => (false, t)
                        | _ => (false, s')
                        end in
      let '(ip, s2) := span is_digit s1 in
      let '(fp, s3) := match s2 with
                       | "."%char :: t => span is_digit t
                       | _ => ([], s2)
                       end in
      let dot := match s2 with "."%char :: _ => true | _ => false end in
      let next_ok := match s3 with
                     | c :: _ => negb (existsb (Ascii.eqb c) (list_ascii_of_string "eEpPxX_nNiI."))
                     | [] => true
                     end in
      let m := digits_value (ip ++ fp) in
      let k := length fp in
      if (negb dot && (length ip =? 0)%nat) || (dot && (length ip + length fp =? 0)%nat) then None
      else if negb next_ok then None
      else if (2 ^ 53 <=? m) || (15 <? k)%nat then None
      else
        let v := PrimFloat.div (PrimFloat.of_uint63 (Uint63.of_Z m))
                               (PrimFloat.of_uint63 (Uint63.of_Z (10 ^ Z.of_nat k))) in
        Some (if neg then PrimFloat.opp v else v, s3)
  end.

(** [fmt.Sscanf(line, rawRunFmt, &nameInner, &p.opsSec, &p.passed,
    &elapsed, &p.size, &p.levels, &p.writeAmp)] returning [n = 7] and no
    error; input after the format's end is ignored. *)
Definition go_sscanf_rawRun (line : string) : option scanned :=
  let lit w s := fmt_lit (list_ascii_of_string w) s in
  s ← lit "BenchmarkRaw" (list_ascii_of_string line);
  '(nm, s) ← scan_s s; s ← fmt_space s;
  '(ops, s) ← scan_d_int s; s ← fmt_space s; s ← lit "ops/sec" s; s ← fmt_space s;
  '(ps, s) ← scan_bool s; s ← fmt_space s; s ← lit "pass" s; s ← fmt_space s;
  '(el, s) ← scan_s s; s ← fmt_space s; s ← lit "elapsed" s; s ← fmt_space s;
  '(sz, s) ← scan_d_uint s; s ← fmt_space s; s ← lit "bytes" s; s ← fmt_space s;
  '(lv, s) ← scan_d_int s; s ← fmt_space s; s ← lit "levels" s; s ← fmt_space s;
  '(wa, s) ← scan_f s; s ← fmt_space s; _ ← lit "writeAmp" s;
  Some {| sc_name := nm; sc_opsSec := ops; sc_passed := ps; sc_elapsed := el;
          sc_size := sz; sc_levels := lv; sc_writeAmp := wa |}.

(** Truncation of a float toward zero ([uint64(x)], [int(x)] on finite
    values in range). *)
Definition float_trunc (x : float) : Z :=
  match Prim2SF x with
  | S754_finite s m e =>
      let a := if 0 <=? e then Z.pos m * 2 ^ e else Z.pos m / 2 ^ (- e) in
      if s then - a else a
  | _ => 0
  end.

(** [time]'s [leadingInt] *)
Fixpoint leadingInt (s : list ascii) (x : Z) : option (Z * list ascii) :=
  match s with
  | c :: t =>
      if is_digit c then
        if two63 / 10 <? x then None
        else let x' := x * 10 + digit_val c in
             if two63 <? x' then None else leadingInt t x'
      else Some (x, s)
  | [] => Some (x, [])
  end.

(** [time]'s [leadingFraction] *)
Fixpoint leadingFraction (s : list ascii) (x : Z) (scale : float) (overflow : bool)
    : Z * float * list ascii :=
  match s with
  | c :: t =>
      if is_digit c then
        if overflow then leadingFraction t x scale true
        else if (two63 - 1) / 10 <? x then leadingFraction t x scale true
        else let y := x * 10 + digit_val c in
             if two63 <? y then leadingFraction t x scale true
             else leadingFraction t y (PrimFloat.mul scale (PrimFloat.of_uint63 10%uint63)) false
      else (x, scale, s)
  | [] => (x, scale, [])
  end.

Definition ascii_string (codes : list nat) : list ascii := map ascii_of_nat codes.

(** [time]'s [unitMap] ("µs" and "μs" in UTF-8). *)
Definition unitMap (u : list ascii) : option Z :=
  if bool_decide (u = list_ascii_of_string "ns") then Some 1
  else if bool_decide (u = list_ascii_of_string "us") then Some 1000
  else if bool_decide (u = ascii_string [194; 181; 115]%nat) then Some 1000
  else if bool_decide (u = ascii_string [206; 188; 115]%nat) then Some 1000
  else if bool_decide (u = list_ascii_of_string "ms") then Some 1000000
  else if bool_decide (u = list_ascii_of_string "s") then Some 1000000000
  else if bool_decide (u = list_ascii_of_string "m") then Some 60000000000
  else if bool_decide (u = list_ascii_of_string "h") then Some 3600000000000
  else None.

Definition digit_or_dot (c : ascii) : bool := is_digit c || Ascii.eqb c ".".

(** One [number unit] component of the [for s != ""] loop of
    [time.ParseDuration]. *)
Definition duration_component (s : list ascii) : option (Z * list ascii) :=
  match s with
  | [] => None
  | c :: _ =>
      if negb (digit_or_dot c) then None
      else
        match leadingInt s 0 with
        | None => None
        | Some (v, s1) =>
            let pre := negb (length s1 =? length s)%nat in
            let '(f, scale, s2, post) :=
              match s1 with
              | "."%char :: t =>
                  let '(f, scale, r) := leadingFraction t 0 (PrimFloat.of_uint63 1%uint63) false in
                  (f, scale, r, negb (length r =? length t)%nat)
              | _ => (0, PrimFloat.of_uint63 1%uint63, s1, false)
              end in
            if negb pre && negb post then None
            else
              let '(u, s3) := span (fun c => negb (digit_or_dot c)) s2 in
              match u with
              | [] => None
              | _ =>
                  match unitMap u with
                  | None => None
                  | Some unit =>
                      if two63 / unit <? v then None
                      else
                        let v := v * unit in
                        let v := if 0 <? f then
                                   v + float_trunc
                                         (PrimFloat.mul (PrimFloat.of_uint63 (Uint63.of_Z f))
                                            (PrimFloat.div (PrimFloat.of_uint63 (Uint63.of_Z unit)) scale))
                                 else v in
                        if two63 <? v then None else Some (v, s3)
                  end
              end
        end
  end.

Fixpoint duration_loop (fuel : nat) (s : list ascii) (d : Z) : option Z :=
  match fuel with
  | O => None
  | S fuel' =>
      match s with
      | [] => Some d
      | _ =>
          match duration_component s with
          | None => None
          | Some (v, s') =>
              let d := d + v in
              if two63 <? d then None else duration_loop fuel' s' d
          end
      end
  end.

(** [time.ParseDuration], in nanoseconds. *)
Definition go_parseDuration (str : string) : option Z :=
  let s := list_ascii_of_string str in
  let '(neg, s) := match s with
                   | "-"%char :: t => (true, t)
                   | "+"%char :: t => (false, t)
                   | _ => (false, s)
                   end in
  if bool_decide (s = ["0"%char]) then Some 0
  else match s with
       | [] => None
       | _ =>
           match duration_loop (S (length s)) s 0 with
           | None => None
           | Some d => if neg then Some (- d)
                       else if two63 - 1 <? d then None else Some d
           end
       end.

(** [int(secs.Seconds())]: whole seconds, truncated. *)
Definition go_parseDuration_secs (str : string) : option Z :=
  match go_parseDuration str with
  | None => None
  | Some d => Some (Z.quot d 1000000000)
  end.

(* ------------------------------------------------------------------ *)
(** ** Views of [walkFn] and of stderr *)

(** The day of a file [walkFn] reads: [None] for the paths it ignores. *)
Definition file_day (f : input_file) : option string :=
  let parts := split_on "/" (pathRel f) in
  if (length parts <? 6)%nat then None
  else if negb (String.eqb (nth 2 parts "") "write") then None
  else Some (nth 0 parts "").

(** The lines the [for s.Scan()] loop of [walkFn] reads from a file. *)
Definition file_lines (f : input_file) : option (list string) :=
  option_map (scan_tokens (eof_with_data f)) (contents f).


(** What one line of a file contributes in [walkFn]'s loop: the benchmark
    name [fmt.Sscanf] stores from it ([""] when the line is ignored or
    rejected), and the sample it appends (none when the line is ignored,
    rejected, or its duration does not parse). *)
Definition name_of_line (sscanf_rawRun : string -> option scanned) (line : string) : string :=
  if negb (String.prefix "BenchmarkRaw" line) then ""
  else match sscanf_rawRun line with
       | None => ""
       | Some sc => sc_name sc
       end.

Definition line_point (sscanf_rawRun : string -> option scanned)
    (parseDuration_secs : string -> option Z) (line : string) : list writePoint :=
  if negb (String.prefix "BenchmarkRaw" line) then []
  else match sscanf_rawRun line with
       | None => []
       | Some sc =>
           match parseDuration_secs (sc_elapsed sc) with
           | None => []
           | Some secs =>
               [{| elapsedSecs := secs; opsSec := sc_opsSec sc; passed := sc_passed sc;
                   size_ := sc_size sc; levels := sc_levels sc; writeAmp := sc_writeAmp sc |}]
           end
       end.

(** The first non-empty name of the lines: the [name] the loop of
    [walkFn] ends with when it sets [name] from [nameInner] while it is
    empty. *)
Fixpoint first_name (sscanf_rawRun : string -> option scanned) (lines : list string) : string :=
  match lines with
  | [] => ""
  | line :: rest =>
      let n := name_of_line sscanf_rawRun line in
      if String.eqb n "" then first_name sscanf_rawRun rest else n
  end.

(** The run of [(nm, day)] in the tree, if any. *)
Definition run_at (ws : gmap string (gmap string writeRun)) (nm day : string) : option writeRun :=
  ws !! nm ≫= fun w => w !! day.

(** The value of a successful result, or [d]. *)
Definition ok_or {A} (d : A) (r : res A) : A :=
  match r with
  | ROk a => a
  | _ => d
  end.

(** [s] contains no comma. *)
Definition no_comma (s : string) : Prop := ~ In ","%char (list_ascii_of_string s).

(** The detail files of one workload's runs, as [cookWriteRunSummaries]
    writes them: [outputWriteRunSummary] of each run of [w]. *)
Definition write_days (files : gmap string (gmap string cookedWriteRun)) (w : gmap string writeRun) :=
  map_fold (fun _ r files => <[writeRun_summaryFilename r := writeRun_formatSummaryJSON r]> files) files w.

(** Each slash of [s] replaced by a dash. *)
Fixpoint slash_to_dash (s : string) : string :=
  match s with
  | EmptyString => EmptyString
  | String c s' => String (if Ascii.eqb c "/" then "-"%char else c) (slash_to_dash s')
  end.

(** The worker runs of a run, in the order [map_to_list] lists them, and
    the two sums [summarize] accumulates over them: the plain sum of the
    representative throughputs, and the [float64] sum of the last write
    amplifications as [summarize]'s loop adds them (the last worker run
    first). *)
Definition worker_runs (r : writeRun) : list rawWriteRun := map snd (map_to_list (rawRuns r)).

Definition ops_sum (rs : list rawWriteRun) : Z :=
  fold_right (fun rr acc => fst (rawWriteRun_opsPerSecSplit rr) + acc) 0 rs.

Definition writeAmp_sum (rs : list rawWriteRun) : float :=
  fold_right (fun rr acc => PrimFloat.add acc (default PrimFloat.zero (rawWriteRun_writeAmp rr)))
    PrimFloat.zero rs.

(* ------------------------------------------------------------------ *)
(** ** Sample inputs *)

Definition ex_wl : string := "values=1024".

(** A record line of workload [nm], as the benchmark prints it. *)
Definition raw_line (nm ops elapsed wa : string) : string :=
  "BenchmarkRaw" ++ nm ++ " " ++ ops ++ " ops/sec true pass " ++ elapsed ++
  " elapsed 1024 bytes 3 levels " ++ wa ++ " writeAmp".

(** A record line of workload [ex_wl]. *)
Definition ex_line (ops elapsed wa : string) : string := raw_line ex_wl ops elapsed wa.

Definition ex_path (day run : string) : string :=
  day ++ "/pebble/write/values=1024/" ++ run ++ "/raw.log".

Definition ex_file (day run : string) (lines : list string) : input_file :=
  {| pathRel := ex_path day run; contents := Some lines; eof_with_data := false |}.

(** A cooked summary of [ex_wl] for [day]. *)
Definition ex_summary (day : string) : writeRunSummary :=
  {| Name := ex_wl; Date := day; OpsSec := 1000;
     WriteAmp := PrimFloat.of_uint63 2%uint63;
     SummaryPath := day ++ "-pebble-write-values=1024-1-summary.json" |}.

(** A sample with throughput [ops] and write amplification [wa]. *)
Definition ex_point (ops : Z) (wa : float) : writePoint :=
  {| elapsedSecs := 5; opsSec := ops; passed := true; size_ := 1024; levels := 3; writeAmp := wa |}.

(** A run of two worker runs, each a single passing sample. *)
Definition ex_run2 (ops1 ops2 : Z) (wa1 wa2 : float) : writeRun :=
  {| name := ex_wl; date := "2023-01-01"; dir := "2023-01-01/pebble/write/values=1024";
     rawRuns := {[ "2023-01-01/pebble/write/values=1024/1/raw.log" :=
                     {| points := [ex_point ops1 wa1]; split := 0 |};
                   "2023-01-01/pebble/write/values=1024/2/raw.log" :=
                     {| points := [ex_point ops2 wa2]; split := 0 |} ]} |}.

(** The value [m * 2^e] of a finite float as the pair [(m, e)]. *)
Definition float_exact (x : float) : Z * Z :=
  match Prim2SF x with
  | S754_finite s m e => (if s then Z.neg m else Z.pos m, e)
  | _ => (0, 0)
  end.

(** The samples the tree holds for file [path] of [(nm, day)]. *)
Definition run_points (l : writeLoader) (nm day path : string) : option (list writePoint) :=
  match workloads l !! nm with
  | Some w =>
      match w !! day with
      | Some r => option_map points (rawRuns r !! path)
      | None => None
      end
  | None => None
  end.

(** The loader [loadCooked] leaves when it succeeds. *)
Definition loaded (f : summary_file) : writeLoader :=
  match loadCooked f newWriteLoader with
  | ROk l => l
  | _ => newWriteLoader
  end.





(** Two worker runs of [ex_wl] on one day. *)
Definition ex_files : list input_file :=
  [ex_file "2023-01-01" "1" [ex_line "1000" "5s" "2.000000"];
   ex_file "2023-01-01" "2" [ex_line "1200" "5s" "3.000000"]].

(** A file whose first record line names [A] but has a malformed duration,
    followed by a well-formed record line naming [B]. *)
Definition ex_lineA : string := raw_line "A" "100" "xyz" "1.0".
Definition ex_lineB : string := raw_line "B" "200" "5s" "1.0".


Definition ex_stA : scan_state := {| st_name := "A"; st_points := []; st_log := [] |}.

Definition ex_scB : scanned :=
  {| sc_name := "B"; sc_opsSec := 200; sc_passed := true; sc_elapsed := "5s";
     sc_size := 1024; sc_levels := 3; sc_writeAmp := PrimFloat.of_uint63 1%uint63 |}.

(** The line feed [rawWriteRun.formatCSV] writes after each row. *)
Definition newline : string := String (Ascii.ascii_of_nat 10) EmptyString.

(** The summary of a run, or a placeholder when [summarize] panics. *)
Definition summary_of (r : writeRun) : writeRunSummary :=
  default (ex_summary "") (writeRun_summarize r).

(** A file system with a stored summary of [ex_wl] for 2022-12-31. *)
Definition ex_cooked_world : world :=
  {| fs_summary := SummaryStored {[ ex_wl := [ex_summary "2022-12-31"] ]};
     fs_runs := ∅; fs_stderr := [] |}.

(** The loader after [loadCooked] on that summary. *)
Definition ex_cooked_loader : writeLoader := loaded (fs_summary ex_cooked_world).

(** The first data file of [ex_files]. *)
Definition ex_file1 : input_file := ex_file "2023-01-01" "1" [ex_line "1000" "5s" "2.000000"].

(* ------------------------------------------------------------------ *)
(** ** Invariants of the aggregation tree *)

(** Every run filed under [(nm, day)] carries that name and date, has at
    least one raw run, and every raw run has at least one point and an
    unset memo. *)
Definition tree_wf (ws : gmap string (gmap string writeRun)) : Prop :=
  forall nm w day r, ws !! nm = Some w -> w !! day = Some r ->
    name r = nm /\ date r = day /\ rawRuns r <> ∅ /\
    forall path rr, rawRuns r !! path = Some rr -> points rr <> [] /\ split rr = 0.





(* ================================================================== *)
(** * Proofs *)

(** ** The split search *)

Section Split.

Variables passes fails : list Z.

Lemma no_worse_refl t : no_worse passes fails t t.
Proof. right. lia. Qed.

Lemma no_worse_trans a b c :
  no_worse passes fails a b -> no_worse passes fails b c -> no_worse passes fails a c.
Proof. unfold no_worse. lia. Qed.

Lemma no_worse_spec t c :
  no_worse passes fails t c <->
  (misclassified passes fails t <= misclassified passes fails c)%nat /\
  (misclassified passes fails c = misclassified passes fails t -> t <= c).
Proof. unfold no_worse. lia. Qed.

Lemma pick_split_spec c cur :
  (pick_split passes fails c cur = c \/ pick_split passes fails c cur = cur) /\
  no_worse passes fails (pick_split passes fails c cur) c /\
  no_worse passes fails (pick_split passes fails c cur) cur.
Proof.
  unfold pick_split, no_worse.
  destruct (Nat.ltb_spec (misclassified passes fails c) (misclassified passes fails cur)); simpl.
  - split; [auto|]. lia.
  - destruct (Nat.eqb_spec (misclassified passes fails c) (misclassified passes fails cur)); simpl.
    + destruct (Z.ltb_spec c cur); simpl; split; auto; lia.
    + split; auto; lia.
Qed.

Lemma best_split_spec cands cur :
  In (best_split passes fails cands cur) (cur :: cands) /\
  forall c, In c (cur :: cands) -> no_worse passes fails (best_split passes fails cands cur) c.
Proof.
  revert cur; induction cands as [|c cs IH]; intros cur; simpl.
  - split; [auto|]. intros c [<-|[]]. apply no_worse_refl.
  - destruct (pick_split_spec c cur) as (Hin & Hc & Hcur).
    destruct (IH (pick_split passes fails c cur)) as [IHin IHbest].
    split.
    + destruct IHin as [Heq|Hin']; [|auto].
      rewrite <- Heq. destruct Hin as [->| ->]; auto.
    + intros x [<-|[<-|Hx]].
      * eapply no_worse_trans; [apply IHbest; left; reflexivity|exact Hcur].
      * eapply no_worse_trans; [apply IHbest; left; reflexivity|exact Hc].
      * apply IHbest. right. exact Hx.
Qed.

End Split.

Lemma fold_left_min_spec (l : list Z) (a : Z) :
  In (fold_left Z.min l a) (a :: l) /\ forall x, In x (a :: l) -> fold_left Z.min l a <= x.
Proof.
  revert a; induction l as [|b l IH]; intros a; simpl.
  - split; [auto|]. intros x [<-|[]]. lia.
  - destruct (IH (Z.min a b)) as [Hin Hle]. split.
    + destruct Hin as [Heq|Hin]; [|auto].
      rewrite <- Heq. destruct (Z.min_spec a b) as [[_ ->]|[_ ->]]; auto.
    + intros x [<-|[<-|Hx]].
      * specialize (Hle _ (or_introl eq_refl)). lia.
      * specialize (Hle _ (or_introl eq_refl)). lia.
      * apply Hle. right. exact Hx.
Qed.

Lemma fold_left_max_spec (l : list Z) (a : Z) :
  In (fold_left Z.max l a) (a :: l) /\ forall x, In x (a :: l) -> x <= fold_left Z.max l a.
Proof.
  revert a; induction l as [|b l IH]; intros a; simpl.
  - split; [auto|]. intros x [<-|[]]. lia.
  - destruct (IH (Z.max a b)) as [Hin Hle]. split.
    + destruct Hin as [Heq|Hin]; [|auto].
      rewrite <- Heq. destruct (Z.max_spec a b) as [[_ ->]|[_ ->]]; auto.
    + intros x [<-|[<-|Hx]].
      * specialize (Hle _ (or_introl eq_refl)). lia.
      * specialize (Hle _ (or_introl eq_refl)). lia.
      * apply Hle. right. exact Hx.
Qed.

Lemma partition_points_spec (pts : list writePoint) :
  partition_points pts =
  (map opsSec (List.filter passed pts),
   map opsSec (List.filter (fun p => negb (passed p)) pts)).
Proof.
  unfold partition_points.
  assert (forall acc,
    fold_left (fun acc p => if passed p then (fst acc ++ [opsSec p], snd acc)
                            else (fst acc, snd acc ++ [opsSec p])) pts acc =
    (fst acc ++ map opsSec (List.filter passed pts),
     snd acc ++ map opsSec (List.filter (fun p => negb (passed p)) pts))) as H.
  { induction pts as [|p pts IH]; intros [a b]; simpl.
    - rewrite !app_nil_r. reflexivity.
    - destruct (passed p); simpl; rewrite IH; simpl; rewrite <- !app_assoc; reflexivity. }
  rewrite H. reflexivity.
Qed.

Lemma filter_length_zero {A} (f : A -> bool) (l : list A) :
  (forall x, In x l -> f x = false) -> length (List.filter f l) = 0%nat.
Proof.
  induction l as [|a l IH]; simpl; intros H; [reflexivity|].
  rewrite (H a (or_introl eq_refl)). apply IH. auto.
Qed.

Lemma findOptimalSplit_spec (P F : list Z) :
  let t := findOptimalSplit P F in
  (P <> [] ->
     In t (P ++ F) /\
     forall c, In c (P ++ F) ->
       (misclassified P F t <= misclassified P F c)%nat /\
       (misclassified P F c = misclassified P F t -> t <= c)) /\
  (F = [] -> P <> [] -> In t P /\ forall p, In p P -> t <= p) /\
  (P = [] -> F <> [] -> In (t - 1) F /\ forall f, In f F -> f < t).
Proof.
  intros t. subst t.
  destruct P as [|p ps].
  - split; [intros H; congruence|]. split; [intros _ H; congruence|].
    intros _ HF. destruct F as [|f fs]; [congruence|]. simpl.
    destruct (fold_left_max_spec fs f) as [Hin Hle].
    replace (fold_left Z.max fs f + 1 - 1) with (fold_left Z.max fs f) by lia.
    split; [exact Hin|]. intros x Hx. specialize (Hle x Hx). lia.
  - destruct F as [|f fs].
    + simpl. destruct (fold_left_min_spec ps p) as [Hin Hle].
      split; [|split; [|intros H; congruence]].
      * intros _. rewrite app_nil_r. split; [exact Hin|].
        intros c Hc.
        assert (Hz : misclassified (p :: ps) [] (fold_left Z.min ps p) = 0%nat).
        { unfold misclassified. simpl List.filter at 2.
          rewrite filter_length_zero; [reflexivity|].
          intros x Hx. apply Z.ltb_ge. apply Hle. exact Hx. }
        rewrite Hz. split; [lia|]. intros _. apply Hle. exact Hc.
      * intros _ _. split; [exact Hin|]. exact Hle.
    + split; [|split; intros H; congruence].
      intros _. simpl findOptimalSplit.
      destruct (best_split_spec (p :: ps) (f :: fs) (ps ++ f :: fs) p) as [Hin Hbest].
      split; [exact Hin|].
      intros c Hc. apply no_worse_spec. apply Hbest. exact Hc.
Qed.

(** C1. The representative throughput of a worker run, computed by
    [rawWriteRun.opsPerSecSplit] on a run as [loadRaw] builds it (memo
    field 0), with [P] the ops/sec values of the passing samples and [F]
    those of the failing ones: when [P] is non-empty it is a value of
    [P ∪ F] with the fewest misclassified samples (a pass below it, a fail
    at or above it), the lowest among equally good ones; when [F] is empty
    it is the minimum of [P]; when [P] is empty it is the maximum of [F]
    plus one. *)
Theorem opsPerSecSplit_optimal (pts : list writePoint) :
  let P := map opsSec (List.filter passed pts) in
  let F := map opsSec (List.filter (fun p => negb (passed p)) pts) in
  let t := fst (rawWriteRun_opsPerSecSplit {| points := pts; split := 0 |}) in
  (P <> [] ->
     In t (P ++ F) /\
     forall c, In c (P ++ F) ->
       (misclassified P F t <= misclassified P F c)%nat /\
       (misclassified P F c = misclassified P F t -> t <= c)) /\
  (F = [] -> P <> [] -> In t P /\ forall p, In p P -> t <= p) /\
  (P = [] -> F <> [] -> In (t - 1) F /\ forall f, In f F -> f < t).
Proof.
  intros P F t.
  assert (Ht : t = findOptimalSplit P F).
  { subst t. unfold rawWriteRun_opsPerSecSplit. simpl.
    rewrite partition_points_spec. reflexivity. }
  rewrite Ht. apply findOptimalSplit_spec.
Qed.

(** ** Sorting *)

Section InsertionSort.

Context {A : Type} (less : A -> A -> bool).
Hypothesis less_asym : forall a b, less a b = true -> less b a = false.


Lemma insert_by_perm x l : Permutation (insert_by less x l) (x :: l).
Proof.
  induction l as [|y t IH]; simpl; [reflexivity|].
  destruct (less x y); [reflexivity|].
  rewrite IH. apply perm_swap.
Qed.

Lemma insertion_sort_perm l : Permutation (insertion_sort less l) l.
Proof.
  unfold insertion_sort.
  assert (forall acc, Permutation (fold_left (fun acc x => insert_by less x acc) l acc)
                                  (acc ++ l)) as H.
  { induction l as [|x l IH]; intros acc; simpl; [rewrite app_nil_r; reflexivity|].
    rewrite IH, insert_by_perm. simpl. apply Permutation_middle. }
  rewrite H. reflexivity.
Qed.

Lemma insert_by_hd y x l :
  HdRel (sort_ord less) y l -> sort_ord less y x -> HdRel (sort_ord less) y (insert_by less x l).
Proof.
  destruct l as [|z t]; simpl; intros Hhd Hyx; [constructor; exact Hyx|].
  destruct (less x z); constructor; [exact Hyx|]. inversion Hhd; assumption.
Qed.

Lemma insert_by_sorted x l : Sorted (sort_ord less) l -> Sorted (sort_ord less) (insert_by less x l).
Proof.
  induction l as [|y t IH]; simpl; intros Hs; [repeat constructor|].
  destruct (less x y) eqn:Hxy.
  - constructor; [exact Hs|]. constructor. unfold sort_ord. apply less_asym. exact Hxy.
  - inversion Hs as [|? ? Ht Hhd]; subst. constructor; [apply IH; exact Ht|].
    apply insert_by_hd; [exact Hhd|exact Hxy].
Qed.

Lemma insertion_sort_sorted l : Sorted (sort_ord less) (insertion_sort less l).
Proof.
  unfold insertion_sort.
  assert (forall acc, Sorted (sort_ord less) acc ->
            Sorted (sort_ord less) (fold_left (fun acc x => insert_by less x acc) l acc)) as H.
  { induction l as [|x l IH]; intros acc Hacc; simpl; [exact Hacc|].
    apply IH. apply insert_by_sorted. exact Hacc. }
  apply H. constructor.
Qed.

End InsertionSort.

Lemma string_ltb_asym (a b : string) : String.ltb a b = true -> String.ltb b a = false.
Proof.
  unfold String.ltb. rewrite (String.compare_antisym b a).
  destruct (String.compare a b); simpl; congruence.
Qed.


(** ** The loops of [cookSummary] *)

Lemma mix_cooked_lookup (summary ck : gmap string (list writeRunSummary)) (nm : string) :
  mix_cooked summary ck !! nm =
  match summary !! nm, ck !! nm with
  | Some e, Some c => Some (sort_by_Date (e ++ c))
  | Some e, None => Some e
  | None, c => c
  end.
Proof.
  unfold mix_cooked. revert nm.
  apply (map_fold_weak_ind
    (fun r (m : gmap string (list writeRunSummary)) => forall nm,
       r !! nm = match summary !! nm, m !! nm with
                 | Some e, Some c => Some (sort_by_Date (e ++ c))
                 | Some e, None => Some e
                 | None, c => c
                 end)).
  - intros nm. rewrite lookup_empty. destruct (summary !! nm); reflexivity.
  - intros i x m r Hi IH nm.
    pose proof (IH i) as Hri. rewrite Hi in Hri.
    destruct (summary !! i) as [e|] eqn:Hs; rewrite Hri.
    + destruct (decide (nm = i)) as [->|Hne].
      * rewrite !lookup_insert_eq, Hs. reflexivity.
      * rewrite !lookup_insert_ne by congruence. apply IH.
    + destruct (decide (nm = i)) as [->|Hne].
      * rewrite !lookup_insert_eq, Hs. reflexivity.
      * rewrite !lookup_insert_ne by congruence. apply IH.
Qed.

Lemma new_summaries_spec (ws : gmap string (gmap string writeRun)) :
  match new_summaries ws with
  | Some s => s = omap cookWriteSummary ws /\
              forall nm w, ws !! nm = Some w -> is_Some (cookWriteSummary w)
  | None => exists nm w, ws !! nm = Some w /\ cookWriteSummary w = None
  end.
Proof.
  unfold new_summaries.
  apply (map_fold_weak_ind
    (fun r (m : gmap string (gmap string writeRun)) =>
       match r with
       | Some s => s = omap cookWriteSummary m /\
                   forall nm w, m !! nm = Some w -> is_Some (cookWriteSummary w)
       | None => exists nm w, m !! nm = Some w /\ cookWriteSummary w = None
       end)).
  - split; [by rewrite omap_empty|]. intros nm w H. rewrite lookup_empty in H. discriminate.
  - intros i x m r Hi IH. destruct r as [s|].
    + destruct IH as [-> Hall]. destruct (cookWriteSummary x) as [t|] eqn:Hx.
      * split.
        -- apply map_eq. intros j. rewrite lookup_omap.
           destruct (decide (j = i)) as [->|Hne].
           ++ rewrite !lookup_insert_eq. simpl. exact (eq_sym Hx).
           ++ rewrite !lookup_insert_ne by congruence. rewrite lookup_omap. reflexivity.
        -- intros nm w Hw. destruct (decide (nm = i)) as [->|Hne].
           ++ rewrite lookup_insert_eq in Hw. injection Hw as <-. rewrite Hx. eauto.
           ++ rewrite lookup_insert_ne in Hw by congruence. eauto.
      * exists i, x. rewrite lookup_insert_eq. auto.
    + destruct IH as (nm & w & Hw & Hc). exists nm, w. split; [|exact Hc].
      rewrite lookup_insert_ne; [exact Hw|]. intros ->. congruence.
Qed.

Lemma cws_step_Some w acc d :
  cookWriteSummary_step w (Some acc) d =
  match w !! d with
  | None => None
  | Some r => match writeRun_summarize r with
              | None => None
              | Some s => Some (acc ++ [s])
              end
  end.
Proof. reflexivity. Qed.

Lemma cws_fold_None w days : fold_left (cookWriteSummary_step w) days None = None.
Proof. induction days; simpl; auto. Qed.

Lemma cws_fold_Some w days acc res :
  fold_left (cookWriteSummary_step w) days (Some acc) = Some res ->
  exists ns, res = acc ++ ns /\
    Forall2 (fun day s => exists r, w !! day = Some r /\ writeRun_summarize r = Some s) days ns.
Proof.
  revert acc; induction days as [|d days IH]; intros acc H; simpl in H.
  - injection H as <-. exists []. rewrite app_nil_r. auto.
  - destruct (w !! d) as [r|] eqn:Hr; [|rewrite cws_fold_None in H; discriminate].
    destruct (writeRun_summarize r) as [s|] eqn:Hs; [|rewrite cws_fold_None in H; discriminate].
    destruct (IH _ H) as (ns & -> & Hf). exists (s :: ns). split.
    + rewrite <- app_assoc. reflexivity.
    + constructor; eauto.
Qed.

Lemma cws_fold_total w days acc :
  (forall day, In day days -> exists r s, w !! day = Some r /\ writeRun_summarize r = Some s) ->
  is_Some (fold_left (cookWriteSummary_step w) days (Some acc)).
Proof.
  revert acc; induction days as [|d days IH]; intros acc H; simpl; [eauto|].
  destruct (H d (or_introl eq_refl)) as (r & s & Hr & Hs).
  rewrite Hr, Hs. apply IH. intros day Hd. apply H. right. exact Hd.
Qed.

Lemma cookWriteSummary_unfold w :
  cookWriteSummary w = fold_left (cookWriteSummary_step w) (sort_Strings (map fst (map_to_list w))) (Some []).
Proof. reflexivity. Qed.

Lemma in_sorted_days (w : gmap string writeRun) day :
  In day (sort_Strings (map fst (map_to_list w))) <-> is_Some (w !! day).
Proof.
  unfold sort_Strings. split.
  - intros H. apply (Permutation_in _ (insertion_sort_perm _ _)) in H.
    apply in_map_iff in H as ([k r] & <- & Hin). simpl.
    apply list_elem_of_In, elem_of_map_to_list in Hin. eauto.
  - intros [r Hr]. apply (Permutation_in _ (Permutation_sym (insertion_sort_perm _ _))).
    apply in_map_iff. exists (day, r). split; [reflexivity|].
    apply list_elem_of_In, elem_of_map_to_list. exact Hr.
Qed.

(** ** Summaries of a run *)

Lemma summarize_sums_total (m : gmap string rawWriteRun) :
  (forall p rr, m !! p = Some rr -> points rr <> []) -> is_Some (summarize_sums m).
Proof.
  unfold summarize_sums.
  apply (map_fold_weak_ind
    (fun res (m : gmap string rawWriteRun) =>
       (forall p rr, m !! p = Some rr -> points rr <> []) -> is_Some res)).
  - intros _. eauto.
  - intros i x m' r Hi IH Hall.
    destruct IH as [[so sw] ->].
    { intros p rr Hp. apply (Hall p). rewrite lookup_insert_ne; [exact Hp|]. congruence. }
    specialize (Hall i x). rewrite lookup_insert_eq in Hall.
    specialize (Hall eq_refl).
    unfold rawWriteRun_writeAmp.
    destruct (last (points x)) eqn:Hl; [eauto|].
    apply last_None in Hl. contradiction.
Qed.

Lemma summarize_total (r : writeRun) :
  rawRuns r <> ∅ ->
  (forall p rr, rawRuns r !! p = Some rr -> points rr <> []) ->
  is_Some (writeRun_summarize r).
Proof.
  intros Hne Hall. unfold writeRun_summarize.
  destruct (summarize_sums_total (rawRuns r) Hall) as [[so sw] Hs]. rewrite Hs.
  destruct (Nat.eqb_spec (size (rawRuns r)) 0) as [Hz|_]; [|eauto].
  apply map_size_empty_iff in Hz. contradiction.
Qed.

Lemma summarize_fields (r : writeRun) (s : writeRunSummary) :
  writeRun_summarize r = Some s -> Name s = name r /\ Date s = date r.
Proof.
  unfold writeRun_summarize.
  destruct (summarize_sums (rawRuns r)) as [[so sw]|]; [|discriminate].
  destruct (size (rawRuns r) =? 0)%nat; [discriminate|].
  intros H. injection H as <-. simpl. auto.
Qed.

(** ** The aggregation tree *)

Lemma log_workloads l ds : workloads (log l ds) = workloads l.
Proof. reflexivity. Qed.

Lemma log_cooked l ds : cooked (log l ds) = cooked l.
Proof. reflexivity. Qed.

Lemma log_cookedSummaries l ds : cookedSummaries (log l ds) = cookedSummaries l.
Proof. reflexivity. Qed.

Lemma addRawRun_wf nm day path raw l :
  split raw = 0 -> tree_wf (workloads l) -> tree_wf (workloads (addRawRun nm day path raw l)).
Proof.
  intros Hsplit Hwf. unfold addRawRun.
  destruct (points raw) as [|pt pts] eqn:Hpts; [exact Hwf|].
  simpl.
  intros nm' w' day' r' Hw' Hr'.
  destruct (decide (nm' = nm)) as [->|Hnm].
  - rewrite lookup_insert_eq in Hw'. injection Hw' as <-.
    destruct (decide (day' = day)) as [->|Hday].
    + rewrite lookup_insert_eq in Hr'. injection Hr' as <-. simpl.
      destruct (workloads l !! nm) as [w0|] eqn:Hw0; simpl.
      * destruct (w0 !! day) as [r0|] eqn:Hr0; simpl.
        -- destruct (Hwf _ _ _ _ Hw0 Hr0) as (Hn & Hd & _ & Hraw).
           split; [exact Hn|]. split; [exact Hd|]. split; [apply insert_non_empty|].
           intros p rr Hp. destruct (decide (p = path)) as [->|Hp'].
           ++ rewrite lookup_insert_eq in Hp. injection Hp as <-. rewrite Hpts. split; [discriminate|exact Hsplit].
           ++ rewrite lookup_insert_ne in Hp by congruence. exact (Hraw _ _ Hp).
        -- split; [reflexivity|]. split; [reflexivity|]. split; [apply insert_non_empty|].
           intros p rr Hp. destruct (decide (p = path)) as [->|Hp'].
           ++ rewrite lookup_insert_eq in Hp. injection Hp as <-. rewrite Hpts. split; [discriminate|exact Hsplit].
           ++ rewrite lookup_insert_ne in Hp by congruence. rewrite lookup_empty in Hp. discriminate.
      * split; [reflexivity|]. split; [reflexivity|]. split; [apply insert_non_empty|].
        intros p rr Hp. destruct (decide (p = path)) as [->|Hp'].
        -- rewrite lookup_insert_eq in Hp. injection Hp as <-. rewrite Hpts. split; [discriminate|exact Hsplit].
        -- rewrite lookup_insert_ne in Hp by congruence. rewrite lookup_empty in Hp. discriminate.
    + rewrite lookup_insert_ne in Hr' by congruence.
      destruct (workloads l !! nm) as [w0|] eqn:Hw0; simpl in Hr'.
      * exact (Hwf _ _ _ _ Hw0 Hr').
      * rewrite lookup_empty in Hr'. discriminate.
  - rewrite lookup_insert_ne in Hw' by congruence. exact (Hwf _ _ _ _ Hw' Hr').
Qed.

Lemma tree_wf_empty : tree_wf ∅.
Proof. intros nm w day r H. rewrite lookup_empty in H. discriminate. Qed.

Section LoaderFacts.
Variable sscanf_rawRun : string -> option scanned.
Variable parseDuration_secs : string -> option Z.

Lemma addRawRun_cooked nm day path raw l :
  cooked (addRawRun nm day path raw l) = cooked l /\
  cookedSummaries (addRawRun nm day path raw l) = cookedSummaries l.
Proof. unfold addRawRun. destruct (points raw); auto. Qed.

Lemma walkFn_wf l f :
  tree_wf (workloads l) -> tree_wf (workloads (walkFn sscanf_rawRun parseDuration_secs l f)).
Proof.
  intros Hwf. unfold walkFn.
  destruct (_ <? _)%nat; [exact Hwf|].
  destruct (negb _); [exact Hwf|].
  destruct (contents f) as [lines|]; [|exact Hwf].
  destruct (scan_lines _ _ _ _ _ _ _); [exact Hwf|].
  apply addRawRun_wf; [reflexivity|exact Hwf].
Qed.

Lemma walkFn_cooked l f :
  cooked (walkFn sscanf_rawRun parseDuration_secs l f) = cooked l /\
  cookedSummaries (walkFn sscanf_rawRun parseDuration_secs l f) = cookedSummaries l.
Proof.
  unfold walkFn.
  destruct (_ <? _)%nat; [auto|].
  destruct (negb _); [auto|].
  destruct (contents f) as [lines|]; [|auto].
  destruct (scan_lines _ _ _ _ _ _ _); [auto|].
  destruct (addRawRun_cooked (st_name s) (nth 0 (split_on "/" (pathRel f)) "") (pathRel f)
    {| points := st_points s; split := 0 |} (log l (st_log s))) as [-> ->]. auto.
Qed.

Lemma loadRaw_wf files l :
  tree_wf (workloads l) -> tree_wf (workloads (loadRaw sscanf_rawRun parseDuration_secs files l)).
Proof.
  unfold loadRaw. revert l; induction files as [|f files IH]; intros l Hwf; simpl; [exact Hwf|].
  apply IH, walkFn_wf, Hwf.
Qed.

Lemma loadRaw_cooked files l :
  cooked (loadRaw sscanf_rawRun parseDuration_secs files l) = cooked l /\
  cookedSummaries (loadRaw sscanf_rawRun parseDuration_secs files l) = cookedSummaries l.
Proof.
  unfold loadRaw. revert l; induction files as [|f files IH]; intros l; simpl; [auto|].
  destruct (IH (walkFn sscanf_rawRun parseDuration_secs l f)) as [-> ->].
  apply walkFn_cooked.
Qed.
End LoaderFacts.

Lemma wf_run_summary ws nm w day r :
  tree_wf ws -> ws !! nm = Some w -> w !! day = Some r ->
  exists s, writeRun_summarize r = Some s /\ Name s = nm /\ Date s = day.
Proof.
  intros Hwf Hw Hr. destruct (Hwf _ _ _ _ Hw Hr) as (Hn & Hd & Hne & Hraw).
  destruct (summarize_total r Hne) as [s Hs].
  { intros p rr Hp. apply (Hraw p rr Hp). }
  exists s. destruct (summarize_fields _ _ Hs) as [Hn' Hd']. rewrite Hn', Hd'. auto.
Qed.

Lemma wf_cookWriteSummary ws nm w :
  tree_wf ws -> ws !! nm = Some w ->
  exists ss, cookWriteSummary w = Some ss /\
    Forall2 (fun day s => exists r, w !! day = Some r /\ writeRun_summarize r = Some s)
      (sort_Strings (map fst (map_to_list w))) ss.
Proof.
  intros Hwf Hw. rewrite cookWriteSummary_unfold.
  destruct (cws_fold_total w (sort_Strings (map fst (map_to_list w))) []) as [ss Hss].
  { intros day Hd. apply in_sorted_days in Hd as [r Hr].
    destruct (wf_run_summary _ _ _ _ _ Hwf Hw Hr) as (s & Hs & _). eauto. }
  exists ss. split; [exact Hss|].
  destruct (cws_fold_Some _ _ _ _ Hss) as (ns & -> & Hf). exact Hf.
Qed.

Lemma wf_new_summaries ws :
  tree_wf ws -> new_summaries ws = Some (omap cookWriteSummary ws).
Proof.
  intros Hwf. pose proof (new_summaries_spec ws) as Hs.
  destruct (new_summaries ws) as [s|].
  - destruct Hs as [-> _]. reflexivity.
  - destruct Hs as (nm & w & Hw & Hc).
    destruct (wf_cookWriteSummary _ _ _ Hwf Hw) as (ss & Hss & _). congruence.
Qed.

Lemma loadCooked_workloads f l l' :
  loadCooked f l = ROk l' -> workloads l' = workloads l.
Proof. destruct f; simpl; intros H; inversion H; reflexivity. Qed.

Lemma loadCooked_wf f l :
  loadCooked f newWriteLoader = ROk l -> tree_wf (workloads l).
Proof. intros H. rewrite (loadCooked_workloads _ _ _ H). apply tree_wf_empty. Qed.

(** C8: after [loadCooked] and [loadRaw], every run in the aggregation tree
    has at least one worker run, every worker run has at least one sample,
    so [rawWriteRun.writeAmp] finds a last sample and [summarize] (which
    divides by the number of worker runs) returns without a panic; in
    particular [cookSummary] does not panic. *)
Theorem loaded_tree_nonempty (sscanf_rawRun : string -> option scanned)
    (parseDuration_secs : string -> option Z) (files : list input_file)
    (f : summary_file) (l : writeLoader) :
  loadCooked f newWriteLoader = ROk l ->
  let l' := loadRaw sscanf_rawRun parseDuration_secs files l in
  (forall nm w day r, workloads l' !! nm = Some w -> w !! day = Some r ->
     rawRuns r <> ∅ /\
     (forall path rr, rawRuns r !! path = Some rr ->
        points rr <> [] /\ is_Some (rawWriteRun_writeAmp rr)) /\
     is_Some (writeRun_summarize r)) /\
  cookSummary l' <> RPanic.
Proof.
  intros Hl l'.
  assert (Hwf : tree_wf (workloads l')).
  { apply loadRaw_wf, (loadCooked_wf f), Hl. }
  split.
  - intros nm w day r Hw Hr.
    destruct (Hwf _ _ _ _ Hw Hr) as (_ & _ & Hne & Hraw).
    split; [exact Hne|]. split.
    + intros path rr Hp. destruct (Hraw _ _ Hp) as [Hpts _]. split; [exact Hpts|].
      unfold rawWriteRun_writeAmp. destruct (last (points rr)) eqn:E; [eauto|].
      apply last_None in E. contradiction.
    + destruct (wf_run_summary _ _ _ _ _ Hwf Hw Hr) as (s & Hs & _). rewrite Hs. eauto.
  - unfold cookSummary. rewrite (wf_new_summaries _ Hwf). discriminate.
Qed.

(** ** Skipping cooked data *)

Section Fresh.
Variable sscanf_rawRun : string -> option scanned.
Variable parseDuration_secs : string -> option Z.





End Fresh.

(** ** The cooked set *)

Lemma cooked_fold_spec (nm : string) (ss : list writeRunSummary) (acc : gset (string * string)) x :
  x ∈ acc \/ (exists s, In s ss /\ x = (nm, Date s)) ->
  x ∈ fold_left (fun acc runSummary => {[(nm, Date runSummary)]} ∪ acc) ss acc.
Proof.
  revert acc; induction ss as [|s ss IH]; intros acc H; simpl.
  - destruct H as [H|(s & [] & _)]. exact H.
  - apply IH. destruct H as [H|(s' & [<-|Hin] & ->)].
    + left. set_solver.
    + left. set_solver.
    + right. eauto.
Qed.

Lemma cooked_pairs_spec (ck : gmap string (list writeRunSummary)) acc :
  acc ⊆ cooked_pairs ck acc /\
  forall nm ss s, ck !! nm = Some ss -> In s ss -> (nm, Date s) ∈ cooked_pairs ck acc.
Proof.
  unfold cooked_pairs.
  apply (map_fold_weak_ind
    (fun r (m : gmap string (list writeRunSummary)) =>
       acc ⊆ r /\ forall nm ss s, m !! nm = Some ss -> In s ss -> (nm, Date s) ∈ r)).
  - split; [reflexivity|]. intros nm ss s H. rewrite lookup_empty in H. discriminate.
  - intros i x m r Hi [Hsub IH]. split.
    + intros y Hy. apply cooked_fold_spec. left. apply Hsub, Hy.
    + intros nm ss s Hl Hin. apply cooked_fold_spec.
      destruct (decide (nm = i)) as [->|Hne].
      * rewrite lookup_insert_eq in Hl. injection Hl as <-. right. eauto.
      * rewrite lookup_insert_ne in Hl by congruence. left. exact (IH _ _ _ Hl Hin).
Qed.


(** ** Ordered summaries *)

Lemma map_fmap_eq {A B} (f : A -> B) (l : list A) : map f l = f <$> l.
Proof. induction l as [|x l IH]; simpl; [reflexivity|]. rewrite IH. reflexivity. Qed.

Lemma sorted_days (w : gmap string writeRun) :
  Sorted (sort_ord String.ltb) (sort_Strings (map fst (map_to_list w))) /\
  NoDup (sort_Strings (map fst (map_to_list w))).
Proof.
  split.
  - apply insertion_sort_sorted, string_ltb_asym.
  - unfold sort_Strings. rewrite (insertion_sort_perm String.ltb).
    rewrite map_fmap_eq. apply NoDup_fst_map_to_list.
Qed.








(** ** A second run *)

Lemma walkFn_unfold sscanf_rawRun parseDuration_secs l f :
  walkFn sscanf_rawRun parseDuration_secs l f =
  match file_day f with
  | None => l
  | Some day =>
      match file_lines f with
      | None => log l [DReadError (pathRel f)]
      | Some lines =>
          match scan_lines sscanf_rawRun parseDuration_secs (cooked l) day (pathRel f) lines scan_init with
          | inl lg => log l lg
          | inr st =>
              addRawRun (st_name st) day (pathRel f)
                {| points := st_points st; split := 0 |} (log l (st_log st))
          end
      end
  end.
Proof.
  unfold walkFn, file_day, file_lines.
  destruct (_ <? _)%nat; [reflexivity|]. destruct (negb _); [reflexivity|].
  destruct (contents f); reflexivity.
Qed.

Section Rerun.
Variable sscanf_rawRun : string -> option scanned.
Variable parseDuration_secs : string -> option Z.










End Rerun.

Lemma cooked_fold_sound (nm : string) (ss : list writeRunSummary) (acc : gset (string * string)) x :
  x ∈ fold_left (fun acc runSummary => {[(nm, Date runSummary)]} ∪ acc) ss acc ->
  x ∈ acc \/ exists s, In s ss /\ x = (nm, Date s).
Proof.
  revert acc; induction ss as [|s ss IH]; intros acc H; simpl in *; [auto|].
  destruct (IH _ H) as [Hx|(s' & Hin & ->)]; [|eauto].
  apply elem_of_union in Hx as [Hx|Hx]; [|auto].
  apply elem_of_singleton in Hx. eauto.
Qed.

Lemma cooked_pairs_sound (ck : gmap string (list writeRunSummary)) acc x :
  x ∈ cooked_pairs ck acc ->
  x ∈ acc \/ exists nm ss s, ck !! nm = Some ss /\ In s ss /\ x = (nm, Date s).
Proof.
  unfold cooked_pairs. revert x.
  apply (map_fold_weak_ind
    (fun r (m : gmap string (list writeRunSummary)) => forall x, x ∈ r ->
       x ∈ acc \/ exists nm ss s, m !! nm = Some ss /\ In s ss /\ x = (nm, Date s))).
  - auto.
  - intros i v m r Hi IH x Hx.
    destruct (cooked_fold_sound _ _ _ _ Hx) as [Hr|(s & Hs & ->)].
    + destruct (IH x Hr) as [Ha|(nm & ss & s & Hl & Hs & ->)]; [auto|].
      right. exists nm, ss, s. split; [|auto].
      rewrite lookup_insert_ne; [exact Hl|]. congruence.
    + right. exists i, v, s. rewrite lookup_insert_eq. auto.
Qed.









(** ** Averages of a run *)

Lemma wrap64_add_wrap a b : wrap64 (a + wrap64 b) = wrap64 (a + b).
Proof.
  unfold wrap64. set (M := 2 * two63).
  assert (HM : M > 0) by (unfold M, two63; lia).
  replace (a + ((b + two63) mod M - two63) + two63) with (a + (b + two63) mod M) by lia.
  replace (a + b + two63) with (a + (b + two63)) by lia.
  rewrite Zplus_mod_idemp_r. reflexivity.
Qed.

Lemma wrap64_id z : int64_range z -> wrap64 z = z.
Proof.
  unfold int64_range, wrap64. intros H. rewrite Z.mod_small; [lia|].
  unfold two63 in *. lia.
Qed.

Lemma summarize_sums_eq (m : gmap string rawWriteRun) :
  (forall p rr, m !! p = Some rr -> points rr <> []) ->
  summarize_sums m =
  Some (wrap64 (ops_sum (map snd (map_to_list m))), writeAmp_sum (map snd (map_to_list m))).
Proof.
  intros Hm. unfold summarize_sums. rewrite map_fold_foldr.
  assert (H : forall k rr, In (k, rr) (map_to_list m) -> points rr <> []).
  { intros k rr Hin. apply (Hm k). apply elem_of_map_to_list, list_elem_of_In, Hin. }
  revert H. generalize (map_to_list m) as l.
  induction l as [|[k rr] l IH]; intros H; simpl; [reflexivity|].
  rewrite IH by (intros k' rr' Hin; apply (H k'); right; exact Hin).
  unfold rawWriteRun_writeAmp.
  destruct (last (points rr)) eqn:E.
  - simpl. f_equal. f_equal.
    rewrite Z.add_comm, wrap64_add_wrap; f_equal; lia.
  - apply last_None in E. exfalso. exact (H k rr (or_introl eq_refl) E).
Qed.

(** C4 (amended): a run with n >= 1 worker runs, each with at least one
    sample, is summarised without a panic. Its [OpsSec] is the truncating
    quotient [Z.quot] of the Go [int] sum of the representative
    throughputs by n. That is the plain sum while it fits in an [int64];
    otherwise the sum has wrapped around. Its [WriteAmp] is
    [math.Round(100*S/float64(n))/100], with [S] the [float64] sum of the
    last write amplifications. This float computation can be 0.01 away
    from the exact mean rounded to two places (see the counterexample
    below). *)
Theorem summarize_averages (r : writeRun) :
  rawRuns r <> ∅ ->
  (forall path rr, rawRuns r !! path = Some rr -> points rr <> []) ->
  let rs := worker_runs r in
  let n := length rs in
  exists s, writeRun_summarize r = Some s /\ (1 <= n)%nat /\
    OpsSec s = Z.quot (wrap64 (ops_sum rs)) (Z.of_nat n) /\
    (int64_range (ops_sum rs) -> OpsSec s = Z.quot (ops_sum rs) (Z.of_nat n)) /\
    WriteAmp s =
      PrimFloat.div
        (go_round (PrimFloat.div (PrimFloat.mul (PrimFloat.of_uint63 100%uint63) (writeAmp_sum rs))
                                 (float_of_nat n)))
        (PrimFloat.of_uint63 100%uint63).
Proof.
  intros Hne Hpts rs n.
  assert (Hn : n = size (rawRuns r)).
  { unfold n, rs, worker_runs. rewrite length_map. apply length_map_to_list. }
  assert (Hsz : (size (rawRuns r) =? 0)%nat = false).
  { apply Nat.eqb_neq. intros Hz. apply map_size_empty_iff in Hz. contradiction. }
  unfold writeRun_summarize. rewrite (summarize_sums_eq _ Hpts), Hsz. eexists. split; [reflexivity|]. simpl.
  fold (worker_runs r). fold rs. rewrite <- Hn.
  apply Nat.eqb_neq in Hsz. split; [lia|].
  split; [reflexivity|]. split; [|reflexivity].
  intros Hr. rewrite wrap64_id by exact Hr. reflexivity.
Qed.

Lemma points_nonempty_check (m : gmap string rawWriteRun) :
  forallb (fun kv : string * rawWriteRun => match points kv.2 with [] => false | _ :: _ => true end)
    (map_to_list m) = true ->
  forall p rr, m !! p = Some rr -> points rr <> [].
Proof.
  intros Hb p rr Hp. apply elem_of_map_to_list, list_elem_of_In in Hp.
  rewrite forallb_forall in Hb. specialize (Hb _ Hp). simpl in Hb.
  destruct (points rr); discriminate.
Qed.

(** Counterexample to C4 as stated: the write amplifications 1.0 and 1.01
    (the [float64] nearest to 1.01) have the exact mean
    [(2^52 + 4548635623644201) * 2^-53]. That mean is above 1.005, so
    rounded to two places it is 1.01. [summarize] computes 1.00, because
    the [float64] sum 2.01 is rounded down before [math.Round]. *)
Lemma summarize_writeAmp_not_rounded_mean :
  let wa2 := PrimFloat.div (PrimFloat.of_uint63 101%uint63) (PrimFloat.of_uint63 100%uint63) in
  float_exact (PrimFloat.of_uint63 1%uint63) = (2 ^ 52, -52) /\
  float_exact wa2 = (4548635623644201, -52) /\
  1005 * 2 ^ 53 < (2 ^ 52 + 4548635623644201) * 1000 /\
  hundredths (2 ^ 52 + 4548635623644201) (-53) = 101 /\
  match writeRun_summarize (ex_run2 1000 1000 (PrimFloat.of_uint63 1%uint63) wa2) with
  | Some s => float_exact (WriteAmp s) = (2 ^ 52, -52) /\ fmt_2f (WriteAmp s) = "1.00"
  | None => False
  end.
Proof. vm_compute. repeat split; reflexivity. Defined.

Lemma summarize_averages_witness :
  let r := ex_run2 1000 1200 (PrimFloat.of_uint63 2%uint63) (PrimFloat.of_uint63 3%uint63) in
  rawRuns r <> ∅ /\
  (forall path rr, rawRuns r !! path = Some rr -> points rr <> []) /\
  (let rs := worker_runs r in
   let n := length rs in
   exists s, writeRun_summarize r = Some s /\ (1 <= n)%nat /\
     OpsSec s = Z.quot (wrap64 (ops_sum rs)) (Z.of_nat n) /\
     (int64_range (ops_sum rs) -> OpsSec s = Z.quot (ops_sum rs) (Z.of_nat n)) /\
     WriteAmp s =
       PrimFloat.div
         (go_round (PrimFloat.div (PrimFloat.mul (PrimFloat.of_uint63 100%uint63) (writeAmp_sum rs))
                                  (float_of_nat n)))
         (PrimFloat.of_uint63 100%uint63)) /\
  match writeRun_summarize r with
  | Some s => OpsSec s = 1100 /\ float_exact (WriteAmp s) = (5629499534213120, -51) /\
              fmt_2f (WriteAmp s) = "2.50"
  | None => False
  end.
Proof.
  intros r.
  assert (Hne : rawRuns r <> ∅).
  { intros H. apply (f_equal size) in H. vm_compute in H. discriminate. }
  assert (Hp : forall path rr, rawRuns r !! path = Some rr -> points rr <> []).
  { apply points_nonempty_check. vm_compute. reflexivity. }
  split; [exact Hne|]. split; [exact Hp|]. split.
  - exact (summarize_averages r Hne Hp).
  - vm_compute. repeat split; reflexivity.
Defined.

(** ** Rejected lines *)









(** ** The benchmark name of a file *)

(** C6 (amended): a file's name is taken from the first line [fmt.Sscanf]
    accepts, when the name is still unset, before the duration is parsed.
    A line whose duration then fails still fixes the name, though it keeps
    no sample. A later accepted line with another name is reported. Its
    sample is kept, under the first name, when its duration parses, and the
    file is not aborted. *)
Theorem scan_line_name (sscanf_rawRun : string -> option scanned)
    (parseDuration_secs : string -> option Z) (cs : gset (string * string))
    (day path line : string) (st : scan_state) (sc : scanned) :
  String.prefix "BenchmarkRaw" line = true -> sscanf_rawRun line = Some sc ->
  (st_name st = "" -> (sc_name sc, day) ∉ cs ->
     exists st', scan_line sscanf_rawRun parseDuration_secs cs day path line st = inr st' /\
       st_name st' = sc_name sc /\
       (parseDuration_secs (sc_elapsed sc) = None -> st_points st' = st_points st)) /\
  (st_name st <> "" -> st_name st <> sc_name sc ->
     exists st', scan_line sscanf_rawRun parseDuration_secs cs day path line st = inr st' /\
       st_name st' = st_name st /\
       In (DNameMismatch (sc_name sc) (st_name st) line) (st_log st') /\
       forall secs, parseDuration_secs (sc_elapsed sc) = Some secs ->
         st_points st' = st_points st ++
           [{| elapsedSecs := secs; opsSec := sc_opsSec sc; passed := sc_passed sc;
               size_ := sc_size sc; levels := sc_levels sc; writeAmp := sc_writeAmp sc |}]).
Proof.
  intros Hp Hs. unfold scan_line. rewrite Hp, Hs. simpl. split.
  - intros Hn Hc. apply String.eqb_eq in Hn. rewrite Hn.
    rewrite bool_decide_false by exact Hc.
    destruct (parseDuration_secs (sc_elapsed sc)) as [secs|] eqn:Hd.
    + eexists. split; [reflexivity|]. split; [reflexivity|]. discriminate.
    + eexists. split; [reflexivity|]. auto.
  - intros Hn Hne. apply String.eqb_neq in Hn, Hne. rewrite Hn, Hne. simpl.
    destruct (parseDuration_secs (sc_elapsed sc)) as [secs|] eqn:Hd.
    + eexists. split; [reflexivity|]. simpl. split; [reflexivity|]. split.
      * apply in_or_app. right. left. reflexivity.
      * intros secs' Hs'. injection Hs' as <-. reflexivity.
    + eexists. split; [reflexivity|]. simpl. split; [reflexivity|]. split.
      * apply in_or_app. left. apply in_or_app. right. left. reflexivity.
      * discriminate.
Qed.

(** ** Loading the cooked summary *)

(** C7: a missing summary file is not an error: [loadCooked] returns the
    loader unchanged, and a first run with no summary file completes. A
    summary file that does not decode, or that cannot be read, aborts the
    command with that error before anything is written. *)
Theorem loadCooked_missing_ok (sscanf_rawRun : string -> option scanned)
    (parseDuration_secs : string -> option Z) (files : list input_file)
    (l : writeLoader) (runs : gmap string (gmap string cookedWriteRun)) (errs : list diag) :
  loadCooked SummaryMissing l = ROk l /\
  (exists wd, parseWrite sscanf_rawRun parseDuration_secs files
                {| fs_summary := SummaryMissing; fs_runs := runs; fs_stderr := errs |} = ROk wd) /\
  parseWrite sscanf_rawRun parseDuration_secs files
    {| fs_summary := SummaryMalformed; fs_runs := runs; fs_stderr := errs |} = RErr ErrUnmarshal /\
  parseWrite sscanf_rawRun parseDuration_secs files
    {| fs_summary := SummaryUnreadable; fs_runs := runs; fs_stderr := errs |} = RErr ErrReadSummary.
Proof.
  split; [reflexivity|]. split; [|split; reflexivity].
  unfold parseWrite. simpl.
  assert (Hwf : tree_wf (workloads (loadRaw sscanf_rawRun parseDuration_secs files newWriteLoader))).
  { apply loadRaw_wf, tree_wf_empty. }
  unfold cookSummary. rewrite (wf_new_summaries _ Hwf). eauto.
Qed.

(** C6: the file of [ex_lineA] then [ex_lineB] is filed under [A], the name
    of its first record line, although that line keeps no sample (its
    duration does not parse). The one sample kept is [B]'s line, and the
    name mismatch is only reported. *)
Lemma name_from_unparsed_line :
  let l := walkFn go_sscanf_rawRun go_parseDuration_secs newWriteLoader
             (ex_file "2023-01-01" "1" [ex_lineA; ex_lineB]) in
  map fst (map_to_list (workloads l)) = ["A"] /\
  option_map (map opsSec) (run_points l "A" "2023-01-01" (ex_path "2023-01-01" "1")) = Some [200] /\
  stderr l = [DDurationError ex_lineA; DNameMismatch "B" "A" ex_lineB;
              DAddRawRun "A" "2023-01-01" 1 (ex_path "2023-01-01" "1")].
Proof.
  vm_compute. split; [reflexivity|split; reflexivity].
Qed.

Lemma scan_line_name_witness :
  String.prefix "BenchmarkRaw" ex_lineB = true /\ go_sscanf_rawRun ex_lineB = Some ex_scB /\
  (st_name ex_stA = "" -> (sc_name ex_scB, "2023-01-01") ∉ (∅ : gset (string * string)) ->
     exists st', scan_line go_sscanf_rawRun go_parseDuration_secs ∅ "2023-01-01"
                   (ex_path "2023-01-01" "1") ex_lineB ex_stA = inr st' /\
       st_name st' = sc_name ex_scB /\
       (go_parseDuration_secs (sc_elapsed ex_scB) = None -> st_points st' = st_points ex_stA)) /\
  (st_name ex_stA <> "" -> st_name ex_stA <> sc_name ex_scB ->
     exists st', scan_line go_sscanf_rawRun go_parseDuration_secs ∅ "2023-01-01"
                   (ex_path "2023-01-01" "1") ex_lineB ex_stA = inr st' /\
       st_name st' = st_name ex_stA /\
       In (DNameMismatch (sc_name ex_scB) (st_name ex_stA) ex_lineB) (st_log st') /\
       forall secs, go_parseDuration_secs (sc_elapsed ex_scB) = Some secs ->
         st_points st' = st_points ex_stA ++
           [{| elapsedSecs := secs; opsSec := sc_opsSec ex_scB; passed := sc_passed ex_scB;
               size_ := sc_size ex_scB; levels := sc_levels ex_scB; writeAmp := sc_writeAmp ex_scB |}]).
Proof.
  assert (H1 : String.prefix "BenchmarkRaw" ex_lineB = true) by (vm_compute; reflexivity).
  assert (H2 : go_sscanf_rawRun ex_lineB = Some ex_scB) by (vm_compute; reflexivity).
  split; [exact H1|split; [exact H2|]].
  exact (scan_line_name go_sscanf_rawRun go_parseDuration_secs ∅ "2023-01-01"
           (ex_path "2023-01-01" "1") ex_lineB ex_stA ex_scB H1 H2).
Defined.

Lemma loaded_tree_nonempty_witness :
  loadCooked SummaryMissing newWriteLoader = ROk newWriteLoader /\
  (let l' := loadRaw go_sscanf_rawRun go_parseDuration_secs ex_files newWriteLoader in
   (forall nm w day r, workloads l' !! nm = Some w -> w !! day = Some r ->
      rawRuns r <> ∅ /\
      (forall path rr, rawRuns r !! path = Some rr ->
         points rr <> [] /\ is_Some (rawWriteRun_writeAmp rr)) /\
      is_Some (writeRun_summarize r)) /\
   cookSummary l' <> RPanic).
Proof.
  assert (H : loadCooked SummaryMissing newWriteLoader = ROk newWriteLoader) by reflexivity.
  split; [exact H|].
  exact (loaded_tree_nonempty go_sscanf_rawRun go_parseDuration_secs ex_files
           SummaryMissing newWriteLoader H).
Defined.


(** ** The CSV of a worker run *)

Lemma string_app_assoc (a b c : string) : (a +:+ b) +:+ c = a +:+ (b +:+ c).
Proof.
  induction a as [|x a IH]; [reflexivity|].
  transitivity (String x ((a +:+ b) +:+ c)); [reflexivity|]. rewrite IH. reflexivity.
Qed.

Lemma string_app_nil_r (a : string) : a +:+ "" = a.
Proof.
  induction a as [|x a IH]; [reflexivity|].
  transitivity (String x (a +:+ "")); [reflexivity|]. rewrite IH. reflexivity.
Qed.

Lemma fold_rows (f : writePoint -> string) (l : list writePoint) (acc : string) :
  fold_left (fun b p => b +:+ f p +:+ newline) l acc =
  acc +:+ fold_right (fun p rest => f p +:+ newline +:+ rest) "" l.
Proof.
  revert acc. induction l as [|p l IH]; intros acc; simpl.
  - rewrite string_app_nil_r. reflexivity.
  - rewrite IH, !string_app_assoc. reflexivity.
Qed.

Lemma rows_join (rows : list string) :
  rows <> [] ->
  fold_right (fun x rest => x +:+ newline +:+ rest) "" rows = join newline rows +:+ newline.
Proof.
  unfold join. induction rows as [|x rows IH]; intros Hne; [congruence|].
  destruct rows as [|y rows].
  - simpl. rewrite string_app_nil_r. reflexivity.
  - transitivity (x +:+ newline +:+
      fold_right (fun x rest => x +:+ newline +:+ rest) "" (y :: rows)); [reflexivity|].
    rewrite IH by discriminate.
    change (String.concat newline (x :: y :: rows))
      with (x +:+ newline +:+ String.concat newline (y :: rows)).
    rewrite !string_app_assoc. reflexivity.
Qed.

(** Counterexample to C9 as stated: the rows are not joined by newlines,
    each one is terminated by one. A worker run with a single sample has
    the CSV ["5,1000,true,1024,3,2.00"] followed by a line feed, which is
    not the newline join of its one row. *)
Lemma formatCSV_trailing_newline :
  let rr := {| points := [ex_point 1000 (PrimFloat.of_uint63 2%uint63)]; split := 0 |} in
  rawWriteRun_formatCSV rr = "5,1000,true,1024,3,2.00" +:+ newline /\
  rawWriteRun_formatCSV rr <> join newline (map writePoint_formatCSV (points rr)).
Proof.
  split; [vm_compute; reflexivity|].
  intros H. apply (f_equal String.length) in H. vm_compute in H. discriminate.
Qed.

(** C9 (amended): the [rawData] of a worker run is its samples' CSV rows
    in order, each followed by a line feed: for a run with samples this is
    the newline join of the rows plus a final line feed. A row is
    elapsed seconds, ops/sec, pass, size, levels and the write
    amplification with two decimals, e.g. ["5,1000,true,1024,3,2.50"]. *)
Theorem formatCSV_rows (rr : rawWriteRun) :
  rawWriteRun_formatCSV rr =
    fold_right (fun p rest => writePoint_formatCSV p +:+ newline +:+ rest) "" (points rr) /\
  (points rr <> [] ->
     rawWriteRun_formatCSV rr = join newline (map writePoint_formatCSV (points rr)) +:+ newline) /\
  rawWriteRun_formatCSV
    {| points := [ex_point 1000 (PrimFloat.of_uint63 2%uint63); ex_point 1200 (PrimFloat.of_uint63 3%uint63)];
       split := 0 |} =
    "5,1000,true,1024,3,2.00" +:+ newline +:+ "5,1200,true,1024,3,3.00" +:+ newline.
Proof.
  assert (H : rawWriteRun_formatCSV rr =
    fold_right (fun p rest => writePoint_formatCSV p +:+ newline +:+ rest) "" (points rr)).
  { unfold rawWriteRun_formatCSV. exact (fold_rows writePoint_formatCSV (points rr) ""). }
  split; [exact H|]. split; [|vm_compute; reflexivity].
  intros Hne. rewrite H, <- rows_join by (destruct (points rr); [congruence|discriminate]).
  clear H Hne. induction (points rr) as [|p l IH]; simpl; [reflexivity|]. rewrite IH. reflexivity.
Qed.

(** ** Summary and detail agree *)

Lemma summarize_sums_ops (m : gmap string rawWriteRun) (a : Z) (b : float) :
  summarize_sums m = Some (a, b) ->
  a = wrap64 (map_fold (fun _ rr acc => acc + fst (rawWriteRun_opsPerSecSplit rr)) 0 m).
Proof.
  unfold summarize_sums. rewrite !map_fold_foldr.
  generalize (map_to_list m) as l. intros l. revert a b.
  induction l as [|[k rr] l IH]; simpl; intros a b H.
  - injection H as <- _. reflexivity.
  - destruct (foldr _ (Some (0, PrimFloat.zero)) l) as [[a' b']|] eqn:E; [|discriminate].
    destruct (rawWriteRun_writeAmp rr); [|discriminate].
    injection H as <- _. rewrite (IH a' b' eq_refl).
    rewrite (Z.add_comm (wrap64 _)), wrap64_add_wrap. f_equal. lia.
Qed.

(** C10: for a run that [summarize] summarises, its [OpsSec] is the
    truncating quotient, by the number of raw data files, of the Go [int]
    sum of the [opsSec] values [formatSummaryJSON] writes for those files:
    both read [opsPerSecSplit] of the same map values, and neither stores
    the memo back. While that sum fits in an [int64] this is the
    truncating integer mean of the written values. *)
Theorem summary_opsSec_matches_detail (r : writeRun) (s : writeRunSummary) :
  writeRun_summarize r = Some s ->
  let detail := writeRun_formatSummaryJSON r in
  let total := map_fold (fun _ c acc => acc + cw_OpsSec c) 0 detail in
  size detail = size (rawRuns r) /\ (0 < size detail)%nat /\
  OpsSec s = Z.quot (wrap64 total) (Z.of_nat (size detail)) /\
  (int64_range total -> OpsSec s = Z.quot total (Z.of_nat (size detail))).
Proof.
  intros H detail total.
  assert (Hd : size detail = size (rawRuns r)) by apply map_size_fmap.
  assert (Ht : total = map_fold (fun _ rr acc => acc + fst (rawWriteRun_opsPerSecSplit rr)) 0 (rawRuns r)).
  { unfold total, detail, writeRun_formatSummaryJSON. rewrite map_fold_fmap. reflexivity. }
  unfold writeRun_summarize in H.
  destruct (summarize_sums (rawRuns r)) as [[a b]|] eqn:E; [|discriminate].
  destruct (Nat.eqb_spec (size (rawRuns r)) 0) as [Hz|Hz]; [discriminate|].
  injection H as <-. simpl. rewrite Hd.
  apply summarize_sums_ops in E. rewrite <- Ht in E. subst a.
  split; [reflexivity|]. split; [lia|]. split; [reflexivity|].
  intros Hr. rewrite wrap64_id by exact Hr. reflexivity.
Qed.

Lemma summary_opsSec_matches_detail_witness :
  let r := ex_run2 1000 1201 (PrimFloat.of_uint63 2%uint63) (PrimFloat.of_uint63 3%uint63) in
  let s := summary_of r in
  writeRun_summarize r = Some s /\ OpsSec s = 1100 /\
  (let detail := writeRun_formatSummaryJSON r in
   let total := map_fold (fun _ c acc => acc + cw_OpsSec c) 0 detail in
   size detail = size (rawRuns r) /\ (0 < size detail)%nat /\
   OpsSec s = Z.quot (wrap64 total) (Z.of_nat (size detail)) /\
   (int64_range total -> OpsSec s = Z.quot total (Z.of_nat (size detail)))).
Proof.
  intros r s.
  assert (H : writeRun_summarize r = Some s) by (vm_compute; reflexivity).
  split; [exact H|]. split; [vm_compute; reflexivity|].
  exact (summary_opsSec_matches_detail r s H).
Defined.

(* ------------------------------------------------------------------ *)
(** ** Further properties of the loader and the writers *)

Section ScanViews.

Variable sscanf_rawRun : string -> option scanned.
Variable parseDuration_secs : string -> option Z.

Lemma scan_line_spec cs day path line st st' :
  scan_line sscanf_rawRun parseDuration_secs cs day path line st = inr st' ->
  st_points st' = st_points st ++ line_point sscanf_rawRun parseDuration_secs line /\
  st_name st' = (if String.eqb (st_name st) "" then name_of_line sscanf_rawRun line else st_name st).
Proof.
  assert (Hkeep : forall st, st_name st = (if String.eqb (st_name st) "" then "" else st_name st)).
  { intros st0. destruct (String.eqb_spec (st_name st0) ""); congruence. }
  unfold scan_line, line_point, name_of_line.
  destruct (String.prefix "BenchmarkRaw" line); simpl.
  2: { intros H. injection H as <-. rewrite app_nil_r. auto. }
  destruct (sscanf_rawRun line) as [sc|].
  2: { intros H. injection H as <-. simpl. rewrite app_nil_r. auto. }
  destruct (String.eqb (st_name st) "") eqn:E.
  - destruct (bool_decide ((sc_name sc, day) ∈ cs)); [discriminate|].
    destruct (parseDuration_secs (sc_elapsed sc)); intros H; injection H as <-; simpl;
      rewrite ?app_nil_r; auto.
  - destruct (negb (String.eqb (st_name st) (sc_name sc)));
      destruct (parseDuration_secs (sc_elapsed sc)); intros H; injection H as <-; simpl;
      rewrite ?app_nil_r; auto.
Qed.

Lemma scan_lines_spec cs day path lines st st' :
  scan_lines sscanf_rawRun parseDuration_secs cs day path lines st = inr st' ->
  st_points st' = st_points st ++ flat_map (line_point sscanf_rawRun parseDuration_secs) lines /\
  st_name st' = (if String.eqb (st_name st) "" then first_name sscanf_rawRun lines else st_name st).
Proof.
  revert st. induction lines as [|line rest IH]; intros st H; simpl in H.
  - injection H as <-. rewrite app_nil_r. simpl.
    destruct (String.eqb_spec (st_name st) ""); auto.
  - destruct (scan_line _ _ _ _ _ _ _) as [lg|st1] eqn:E; [discriminate|].
    destruct (scan_line_spec _ _ _ _ _ _ E) as [Hp Hn].
    destruct (IH _ H) as [Hp' Hn']. split.
    + rewrite Hp', Hp. simpl. rewrite app_assoc. reflexivity.
    + rewrite Hn', Hn. simpl.
      destruct (String.eqb (st_name st) "") eqn:E0.
      * destruct (String.eqb (name_of_line sscanf_rawRun line) ""); reflexivity.
      * rewrite E0. reflexivity.
Qed.

Lemma scan_line_inl cs day path line st lg :
  scan_line sscanf_rawRun parseDuration_secs cs day path line st = inl lg ->
  st_name st = "" /\
  (name_of_line sscanf_rawRun line, day) ∈ cs /\
  lg = st_log st ++ [DSkipCooked path (name_of_line sscanf_rawRun line) day].
Proof.
  unfold scan_line, name_of_line.
  destruct (String.prefix "BenchmarkRaw" line); simpl; [|discriminate].
  destruct (sscanf_rawRun line) as [sc|]; [|discriminate].
  destruct (String.eqb_spec (st_name st) "") as [E|E].
  - destruct (bool_decide ((sc_name sc, day) ∈ cs)) eqn:B.
    + intros H. injection H as <-. apply bool_decide_eq_true in B. auto.
    + destruct (parseDuration_secs (sc_elapsed sc)); discriminate.
  - destruct (negb _); destruct (parseDuration_secs (sc_elapsed sc)); discriminate.
Qed.

Lemma scan_lines_inl cs day path lines st lg :
  scan_lines sscanf_rawRun parseDuration_secs cs day path lines st = inl lg ->
  exists n, last lg = Some (DSkipCooked path n day).
Proof.
  revert st. induction lines as [|line rest IH]; intros st H; simpl in H; [discriminate|].
  destruct (scan_line _ _ _ _ _ _ _) as [lg'|st1] eqn:E.
  - injection H as <-. destruct (scan_line_inl _ _ _ _ _ _ E) as (_ & _ & ->).
    eexists. apply last_snoc.
  - exact (IH _ H).
Qed.

Lemma scan_lines_inr cs day path lines st :
  (if String.eqb (st_name st) "" then (first_name sscanf_rawRun lines, day) ∉ cs else True) ->
  ("", day) ∉ cs ->
  exists st', scan_lines sscanf_rawRun parseDuration_secs cs day path lines st = inr st'.
Proof.
  revert st. induction lines as [|line rest IH]; intros st Hf He; simpl; [eauto|].
  destruct (scan_line _ _ _ _ _ _ _) as [lg|st1] eqn:E.
  - exfalso. destruct (scan_line_inl _ _ _ _ _ _ E) as (Hn & Hin & _).
    rewrite Hn in Hf. simpl in Hf.
    destruct (String.eqb_spec (name_of_line sscanf_rawRun line) "") as [Hl|Hl].
    + rewrite Hl in Hin. exact (He Hin).
    + exact (Hf Hin).
  - apply IH; [|exact He].
    destruct (scan_line_spec _ _ _ _ _ _ E) as [_ ->].
    destruct (String.eqb (st_name st) "") eqn:E0; [|rewrite E0; exact I].
    simpl in Hf. destruct (String.eqb (name_of_line sscanf_rawRun line) "") eqn:E1; [|exact I].
    rewrite ?E1 in Hf. exact Hf.
Qed.

Lemma scan_lines_skip cs day path lines st :
  st_name st = "" -> first_name sscanf_rawRun lines <> "" ->
  (first_name sscanf_rawRun lines, day) ∈ cs ->
  exists lg, scan_lines sscanf_rawRun parseDuration_secs cs day path lines st = inl lg.
Proof.
  revert st. induction lines as [|line rest IH]; intros st Hn Hf Hin; simpl in *; [congruence|].
  destruct (scan_line _ _ _ _ _ _ _) as [lg|st1] eqn:E; [eauto|].
  destruct (String.eqb_spec (name_of_line sscanf_rawRun line) "") as [Hl|Hl].
  - apply IH; [|exact Hf|exact Hin].
    destruct (scan_line_spec _ _ _ _ _ _ E) as [_ ->]. rewrite Hn. simpl. exact Hl.
  - exfalso. revert E. unfold scan_line. unfold name_of_line in Hl, Hin.
    destruct (String.prefix "BenchmarkRaw" line); simpl in *; [|congruence].
    destruct (sscanf_rawRun line) as [sc|]; [|congruence].
    rewrite Hn. simpl. rewrite bool_decide_true by exact Hin. discriminate.
Qed.

End ScanViews.

Lemma addRawRun_points_at (nm day path : string) (raw : rawWriteRun) (l : writeLoader)
    (nm' day' path' : string) :
  points raw <> [] ->
  run_points (addRawRun nm day path raw l) nm' day' path' =
  if bool_decide (nm' = nm /\ day' = day /\ path' = path) then Some (points raw)
  else run_points l nm' day' path'.
Proof.
  intros H. unfold addRawRun. destruct (points raw) as [|p ps] eqn:Ep; [congruence|].
  rewrite <- Ep. unfold run_points. simpl.
  destruct (decide (nm' = nm)) as [->|Hnm].
  - rewrite lookup_insert_eq.
    destruct (decide (day' = day)) as [->|Hday].
    + rewrite lookup_insert_eq. simpl.
      destruct (decide (path' = path)) as [->|Hp].
      * rewrite lookup_insert_eq, bool_decide_true by auto. reflexivity.
      * rewrite lookup_insert_ne by congruence.
        rewrite bool_decide_false by naive_solver.
        destruct (workloads l !! nm) as [w|]; simpl.
        -- destruct (w !! day); reflexivity.
        -- rewrite !lookup_empty. reflexivity.
    + rewrite lookup_insert_ne by congruence.
      rewrite bool_decide_false by naive_solver.
      destruct (workloads l !! nm) as [w|]; simpl; [reflexivity|].
      rewrite lookup_empty. reflexivity.
  - rewrite lookup_insert_ne by congruence.
    rewrite bool_decide_false by naive_solver. reflexivity.
Qed.

Lemma addRawRun_run_at_other (nm day path : string) (raw : rawWriteRun) (l : writeLoader)
    (nm' day' : string) :
  day' <> day ->
  run_at (workloads (addRawRun nm day path raw l)) nm' day' = run_at (workloads l) nm' day'.
Proof.
  intros Hd. unfold addRawRun, run_at. destruct (points raw); [reflexivity|]. simpl.
  destruct (decide (nm' = nm)) as [->|Hnm].
  - rewrite lookup_insert_eq. simpl. rewrite lookup_insert_ne by congruence.
    destruct (workloads l !! nm); simpl; [reflexivity|]. apply lookup_empty.
  - rewrite lookup_insert_ne by congruence. reflexivity.
Qed.

(** [bufio.Scanner] with [ScanLines] and the default 64 KiB buffer: when a line ended by a newline is 65536 bytes or longer, the loop ends there and [file_lines] keeps only the lines before it, each with one trailing carriage return removed; when every piece is shorter, every line is kept that way, and an empty piece after the last newline yields nothing. *)
Theorem scan_tokens_first_long_line :
  (forall e pre long post,
     Forall (fun s => (String.length s < maxScanTokenSize)%nat) pre ->
     (maxScanTokenSize <= String.length long)%nat -> post <> [] ->
     scan_tokens e (pre ++ long :: post) = map dropCR pre) /\
  (forall e pre last,
     Forall (fun s => (String.length s < maxScanTokenSize)%nat) (pre ++ [last]) ->
     scan_tokens e (pre ++ [last]) = map dropCR pre ++ (if String.eqb last "" then [] else [dropCR last])).
Proof.
  split.
  - intros e pre long post Hpre Hl Hp. induction pre as [|x pre IH].
    + destruct post as [|q post]; [contradiction|]. simpl.
      destruct (String.length long <? maxScanTokenSize)%nat eqn:E; [|reflexivity].
      apply Nat.ltb_lt in E. lia.
    + inversion Hpre as [|? ? Hx Hr]; subst.
      change ((x :: pre) ++ long :: post) with (x :: (pre ++ long :: post)).
      transitivity (if (String.length x <? maxScanTokenSize)%nat
                    then dropCR x :: scan_tokens e (pre ++ long :: post) else []).
      { destruct (pre ++ long :: post) as [|y ys] eqn:Ey; [destruct pre; discriminate|]. reflexivity. }
      apply Nat.ltb_lt in Hx. rewrite Hx, IH by exact Hr. reflexivity.
  - intros e pre last Hall. induction pre as [|x pre IH].
    + simpl. inversion Hall as [|? ? Hx _]; subst. apply Nat.ltb_lt in Hx. rewrite Hx.
      destruct (String.eqb last ""); reflexivity.
    + inversion Hall as [|? ? Hx Hr]; subst.
      change ((x :: pre) ++ [last]) with (x :: (pre ++ [last])).
      transitivity (if (String.length x <? maxScanTokenSize)%nat
                    then dropCR x :: scan_tokens e (pre ++ [last]) else []).
      { destruct (pre ++ [last]) as [|y ys] eqn:Ey; [destruct pre; discriminate|]. reflexivity. }
      apply Nat.ltb_lt in Hx. rewrite Hx, IH by exact Hr. reflexivity.
Qed.

Section WalkViews.

Variable sscanf_rawRun : string -> option scanned.
Variable parseDuration_secs : string -> option Z.

Lemma walkFn_points_core l f day lines :
  file_day f = Some day -> file_lines f = Some lines ->
  (first_name sscanf_rawRun lines, day) ∉ cooked l -> ("", day) ∉ cooked l ->
  let pts := flat_map (line_point sscanf_rawRun parseDuration_secs) lines in
  (pts = [] -> workloads (walkFn sscanf_rawRun parseDuration_secs l f) = workloads l) /\
  (pts <> [] ->
     run_points (walkFn sscanf_rawRun parseDuration_secs l f) (first_name sscanf_rawRun lines) day (pathRel f) =
     Some pts).
Proof.
  intros Hd Hc Hf He pts. rewrite walkFn_unfold, Hd, Hc.
  destruct (scan_lines_inr sscanf_rawRun parseDuration_secs (cooked l) day (pathRel f) lines scan_init Hf He)
    as [st E].
  rewrite E. destruct (scan_lines_spec _ _ _ _ _ _ _ _ E) as [Hp Hn]. simpl in Hp, Hn.
  split.
  - intros H0. unfold addRawRun. simpl. rewrite Hp. fold pts. rewrite H0. reflexivity.
  - intros H0. rewrite addRawRun_points_at by (simpl; rewrite Hp; exact H0).
    rewrite bool_decide_true by auto. simpl. rewrite Hp. reflexivity.
Qed.

Lemma walkFn_frame_core l f :
  (file_day f = None -> walkFn sscanf_rawRun parseDuration_secs l f = l) /\
  (forall nm day, file_day f <> Some day ->
     run_at (workloads (walkFn sscanf_rawRun parseDuration_secs l f)) nm day = run_at (workloads l) nm day) /\
  (forall nm day path, path <> pathRel f ->
     run_points (walkFn sscanf_rawRun parseDuration_secs l f) nm day path = run_points l nm day path).
Proof.
  split; [|split].
  - intros Hd. rewrite walkFn_unfold, Hd. reflexivity.
  - intros nm day Hd. rewrite walkFn_unfold. destruct (file_day f) as [d|]; [|reflexivity].
    destruct (file_lines f) as [lines|]; [|reflexivity].
    destruct (scan_lines _ _ _ _ _ _ _) as [lg|st]; [reflexivity|].
    rewrite addRawRun_run_at_other by congruence. reflexivity.
  - intros nm day path Hp. rewrite walkFn_unfold. destruct (file_day f) as [d|]; [|reflexivity].
    destruct (file_lines f) as [lines|]; [|reflexivity].
    destruct (scan_lines _ _ _ _ _ _ _) as [lg|st]; [reflexivity|].
    destruct (st_points st) as [|p ps] eqn:Ep.
    + reflexivity.
    + rewrite addRawRun_points_at by discriminate.
      rewrite bool_decide_false by naive_solver. reflexivity.
Qed.

Lemma loadRaw_frame files l nm day path :
  Forall (fun g => path <> pathRel g) files ->
  run_points (loadRaw sscanf_rawRun parseDuration_secs files l) nm day path = run_points l nm day path.
Proof.
  revert l. induction files as [|g files IH]; intros l Hf; [reflexivity|].
  inversion Hf as [|? ? Hg Hfs]; subst.
  change (loadRaw sscanf_rawRun parseDuration_secs (g :: files) l)
    with (loadRaw sscanf_rawRun parseDuration_secs files (walkFn sscanf_rawRun parseDuration_secs l g)).
  rewrite IH by exact Hfs. destruct (walkFn_frame_core l g) as (_ & _ & H). apply H, Hg.
Qed.

(** A data file of a fresh (workload, day) contributes exactly the lines the scanner yields ([file_lines], which stops at the first line of 64 KiB or more) that are accepted and have a parseable duration, in file order, filed under the first scanned name. *)
Theorem walkFn_files_samples l f day lines :
  file_day f = Some day -> file_lines f = Some lines ->
  (first_name sscanf_rawRun lines, day) ∉ cooked l -> ("", day) ∉ cooked l ->
  let pts := flat_map (line_point sscanf_rawRun parseDuration_secs) lines in
  (pts = [] -> workloads (walkFn sscanf_rawRun parseDuration_secs l f) = workloads l) /\
  (pts <> [] ->
     run_points (walkFn sscanf_rawRun parseDuration_secs l f) (first_name sscanf_rawRun lines) day (pathRel f) =
     Some pts).
Proof. exact (walkFn_points_core l f day lines). Qed.

(** [walkFn] ignores paths that are not write-benchmark files, touches only the day of the file and only the path of the file, and for an unreadable file only logs the read error. *)
Theorem walkFn_frame l f :
  (file_day f = None -> walkFn sscanf_rawRun parseDuration_secs l f = l) /\
  (forall nm day, file_day f <> Some day ->
     run_at (workloads (walkFn sscanf_rawRun parseDuration_secs l f)) nm day = run_at (workloads l) nm day) /\
  (forall nm day path, path <> pathRel f ->
     run_points (walkFn sscanf_rawRun parseDuration_secs l f) nm day path = run_points l nm day path) /\
  (file_day f <> None -> contents f = None ->
     walkFn sscanf_rawRun parseDuration_secs l f = log l [DReadError (pathRel f)]).
Proof.
  destruct (walkFn_frame_core l f) as (H1 & H2 & H3). split; [exact H1|]. split; [exact H2|].
  split; [exact H3|]. intros Hd Hc. rewrite walkFn_unfold. unfold file_lines at 1. rewrite Hc.
  destruct (file_day f); [reflexivity|]. contradiction.
Qed.

(** A data file whose first scanned (name, day), among the lines the scanner yields ([file_lines]), is already cooked adds no run, and the last stderr line is the skip message for that file and day. *)
Theorem walkFn_skips_cooked l f day lines :
  file_day f = Some day -> file_lines f = Some lines ->
  first_name sscanf_rawRun lines <> "" -> (first_name sscanf_rawRun lines, day) ∈ cooked l ->
  workloads (walkFn sscanf_rawRun parseDuration_secs l f) = workloads l /\
  exists n, last (stderr (walkFn sscanf_rawRun parseDuration_secs l f)) = Some (DSkipCooked (pathRel f) n day).
Proof.
  intros Hd Hc Hn Hin. rewrite walkFn_unfold, Hd, Hc.
  destruct (scan_lines_skip sscanf_rawRun parseDuration_secs (cooked l) day (pathRel f) lines scan_init
              eq_refl Hn Hin) as [lg E].
  rewrite E. split; [reflexivity|].
  destruct (scan_lines_inl _ _ _ _ _ _ _ _ E) as [n Hl]. exists n. simpl.
  destruct lg as [|d lg] using rev_ind; [discriminate|].
  rewrite app_assoc, last_snoc. rewrite last_snoc in Hl. exact Hl.
Qed.

(** After [loadRaw] over files with distinct paths, each fresh data file with accepted samples among the lines the scanner yields ([file_lines]) is found in the tree under its first name, its day and its path, with exactly those samples. *)
Theorem loadRaw_file_samples files l f day lines :
  NoDup (map pathRel files) -> In f files ->
  file_day f = Some day -> file_lines f = Some lines ->
  (first_name sscanf_rawRun lines, day) ∉ cooked l -> ("", day) ∉ cooked l ->
  flat_map (line_point sscanf_rawRun parseDuration_secs) lines <> [] ->
  run_points (loadRaw sscanf_rawRun parseDuration_secs files l) (first_name sscanf_rawRun lines) day (pathRel f) =
  Some (flat_map (line_point sscanf_rawRun parseDuration_secs) lines).
Proof.
  intros Hnd Hin Hd Hc Hf He Hne.
  apply in_split in Hin as (pre & post & ->).
  assert (Hsplit : loadRaw sscanf_rawRun parseDuration_secs (pre ++ f :: post) l =
    loadRaw sscanf_rawRun parseDuration_secs post
      (walkFn sscanf_rawRun parseDuration_secs (loadRaw sscanf_rawRun parseDuration_secs pre l) f)).
  { unfold loadRaw. rewrite fold_left_app. reflexivity. }
  rewrite Hsplit.
  rewrite loadRaw_frame.
  - destruct (loadRaw_cooked sscanf_rawRun parseDuration_secs pre l) as [Hck _].
    apply walkFn_points_core; [exact Hd|exact Hc|rewrite Hck; exact Hf|rewrite Hck; exact He|exact Hne].
  - rewrite map_app in Hnd. simpl in Hnd. apply NoDup_app in Hnd as (_ & _ & Hnd).
    apply NoDup_cons in Hnd as [Hnot _].
    apply Forall_forall. intros g Hg Heq. apply Hnot. rewrite Heq.
    apply list_elem_of_In, in_map, list_elem_of_In, Hg.
Qed.

End WalkViews.


(** Loading a stored summary leaves the tree empty, keeps the summary as the cooked summaries, and marks as cooked exactly the (name, date) pairs it lists. *)
Theorem loadCooked_cooked_set (s : gmap string (list writeRunSummary)) :
  let l := loaded (SummaryStored s) in
  workloads l = ∅ /\ cookedSummaries l = s /\
  forall nm day, (nm, day) ∈ cooked l <-> exists ss r, s !! nm = Some ss /\ In r ss /\ Date r = day.
Proof.
  simpl. split; [reflexivity|]. split; [reflexivity|]. intros nm day. split.
  - intros H. destruct (cooked_pairs_sound s ∅ _ H) as [H0|(nm' & ss & r & Hs & Hr & Heq)].
    + exfalso. apply (not_elem_of_empty (C := gset (string * string)) _ H0).
    + injection Heq as -> ->. eauto.
  - intros (ss & r & Hs & Hr & <-). destruct (cooked_pairs_spec s ∅) as [_ H]. eapply H; eauto.
Qed.

(** The summary map has an entry for a workload iff it has new runs or cooked summaries; with only one of the two the entry is that one. *)
Theorem cookSummary_domain (l : writeLoader) (m : gmap string (list writeRunSummary)) :
  cookSummary l = ROk m ->
  forall nm,
    (is_Some (m !! nm) <-> is_Some (workloads l !! nm) \/ is_Some (cookedSummaries l !! nm)) /\
    (workloads l !! nm = None -> m !! nm = cookedSummaries l !! nm) /\
    (cookedSummaries l !! nm = None -> m !! nm = workloads l !! nm ≫= cookWriteSummary).
Proof.
  unfold cookSummary. pose proof (new_summaries_spec (workloads l)) as Hs.
  destruct (new_summaries (workloads l)) as [s|]; [|discriminate].
  intros H. injection H as <-. destruct Hs as [-> Htot]. intros nm.
  rewrite mix_cooked_lookup, lookup_omap.
  destruct (workloads l !! nm) as [w|] eqn:Hw; simpl.
  - destruct (Htot nm w Hw) as [ss Hss]. rewrite Hss.
    destruct (cookedSummaries l !! nm); (split; [|split]).
    + split; [intros _; left; eauto | intros _; eauto].
    + discriminate.
    + discriminate.
    + split; [intros _; left; eauto | intros _; eauto].
    + discriminate.
    + reflexivity.
  - destruct (cookedSummaries l !! nm); (split; [|split]).
    + split; [intros _; right; eauto | intros _; eauto].
    + reflexivity.
    + discriminate.
    + split; [intros [? ?]; discriminate | intros [[? ?]|[? ?]]; discriminate].
    + reflexivity.
    + reflexivity.
Qed.


Lemma cws_fold_None_inv w days acc :
  fold_left (cookWriteSummary_step w) days (Some acc) = None ->
  exists day, In day days /\ match w !! day with None => True | Some r => writeRun_summarize r = None end.
Proof.
  revert acc; induction days as [|d days IH]; intros acc H; simpl in H; [discriminate|].
  destruct (w !! d) as [r|] eqn:Hr.
  - destruct (writeRun_summarize r) as [s|] eqn:Hs.
    + destruct (IH _ H) as (day & Hin & Hd). exists day. split; [right; exact Hin | exact Hd].
    + exists d. split; [left; reflexivity|]. rewrite Hr. exact Hs.
  - exists d. split; [left; reflexivity|]. rewrite Hr. exact I.
Qed.

Section DetailFiles.
Variable k : string.
Variable v : gmap string cookedWriteRun.


Lemma write_days_absent files w :
  (forall d r, w !! d = Some r -> writeRun_summaryFilename r <> k) ->
  write_days files w !! k = files !! k.
Proof.
  unfold write_days.
  apply (map_fold_weak_ind (fun res (m : gmap string writeRun) =>
    (forall d r, m !! d = Some r -> writeRun_summaryFilename r <> k) -> res !! k = files !! k)).
  - auto.
  - intros i x m res Hi IH H. rewrite lookup_insert_ne.
    + apply IH. intros d r Hd. apply (H d). rewrite lookup_insert_ne; [exact Hd|]. congruence.
    + intros Heq. apply (H i x); [apply lookup_insert_eq | congruence].
Qed.

Lemma write_days_value files w :
  (forall d r, w !! d = Some r -> writeRun_summaryFilename r = k -> writeRun_formatSummaryJSON r = v) ->
  (files !! k = Some v \/ exists d r, w !! d = Some r /\ writeRun_summaryFilename r = k) ->
  write_days files w !! k = Some v.
Proof.
  unfold write_days.
  apply (map_fold_weak_ind (fun res (m : gmap string writeRun) =>
    (forall d r, m !! d = Some r -> writeRun_summaryFilename r = k -> writeRun_formatSummaryJSON r = v) ->
    (files !! k = Some v \/ exists d r, m !! d = Some r /\ writeRun_summaryFilename r = k) ->
    res !! k = Some v)).
  - intros _ [H|(d & r & H & _)]; [exact H|]. rewrite lookup_empty in H. discriminate.
  - intros i x m res Hi IH Hall Hex.
    destruct (decide (writeRun_summaryFilename x = k)) as [Heq|Hne].
    + rewrite Heq, lookup_insert_eq. f_equal. apply (Hall i); [apply lookup_insert_eq | exact Heq].
    + rewrite lookup_insert_ne by congruence. apply IH.
      * intros d r Hd. apply (Hall d). rewrite lookup_insert_ne; [exact Hd|]. congruence.
      * destruct Hex as [Hf|(d & r & Hd & Hk)]; [left; exact Hf|right].
        destruct (decide (d = i)) as [->|Hdi].
        -- rewrite lookup_insert_eq in Hd. injection Hd as <-. contradiction.
        -- rewrite lookup_insert_ne in Hd by congruence. eauto.
Qed.

Lemma cookWriteRunSummaries_absent l files :
  (forall nm w d r, workloads l !! nm = Some w -> w !! d = Some r -> writeRun_summaryFilename r <> k) ->
  cookWriteRunSummaries l files !! k = files !! k.
Proof.
  unfold cookWriteRunSummaries. fold write_days.
  apply (map_fold_weak_ind (fun res (m : gmap string (gmap string writeRun)) =>
    (forall nm w d r, m !! nm = Some w -> w !! d = Some r -> writeRun_summaryFilename r <> k) ->
    res !! k = files !! k)).
  - auto.
  - intros i x m res Hi IH H. rewrite write_days_absent.
    + apply IH. intros nm w d r Hm. apply (H nm). rewrite lookup_insert_ne; [exact Hm|]. congruence.
    + intros d r Hd. apply (H i x d r); [apply lookup_insert_eq | exact Hd].
Qed.

Lemma cookWriteRunSummaries_value l files :
  (forall nm w d r, workloads l !! nm = Some w -> w !! d = Some r ->
     writeRun_summaryFilename r = k -> writeRun_formatSummaryJSON r = v) ->
  (files !! k = Some v \/ exists nm w d r, workloads l !! nm = Some w /\ w !! d = Some r /\
     writeRun_summaryFilename r = k) ->
  cookWriteRunSummaries l files !! k = Some v.
Proof.
  unfold cookWriteRunSummaries. fold write_days.
  apply (map_fold_weak_ind (fun res (m : gmap string (gmap string writeRun)) =>
    (forall nm w d r, m !! nm = Some w -> w !! d = Some r ->
       writeRun_summaryFilename r = k -> writeRun_formatSummaryJSON r = v) ->
    (files !! k = Some v \/ exists nm w d r, m !! nm = Some w /\ w !! d = Some r /\
       writeRun_summaryFilename r = k) ->
    res !! k = Some v)).
  - intros _ [H|(nm & w & d & r & H & _)]; [exact H|]. rewrite lookup_empty in H. discriminate.
  - intros i x m res Hi IH Hall Hex.
    assert (Hx : forall d r, x !! d = Some r -> writeRun_summaryFilename r = k ->
                 writeRun_formatSummaryJSON r = v).
    { intros d r. apply (Hall i x d r). apply lookup_insert_eq. }
    assert (Hm : forall nm w d r, m !! nm = Some w -> w !! d = Some r ->
                 writeRun_summaryFilename r = k -> writeRun_formatSummaryJSON r = v).
    { intros nm w d r Hn. apply (Hall nm). rewrite lookup_insert_ne; [exact Hn|]. congruence. }
    destruct Hex as [Hf|(nm & w & d & r & Hn & Hd & Hk)].
    + apply write_days_value; [exact Hx|]. left. apply IH; [exact Hm | left; exact Hf].
    + destruct (decide (nm = i)) as [->|Hni].
      * rewrite lookup_insert_eq in Hn. injection Hn as <-.
        apply write_days_value; [exact Hx|]. right. eauto.
      * rewrite lookup_insert_ne in Hn by congruence.
        apply write_days_value; [exact Hx|]. left. apply IH; [exact Hm|]. right. eauto 7.
Qed.

End DetailFiles.

(** Detail files with no run of that file name are kept; a run whose file name no differing run shares has its detail written under that name. *)
Theorem cookWriteRunSummaries_files (l : writeLoader) (files : gmap string (gmap string cookedWriteRun)) :
  (forall k, (forall nm w day r, workloads l !! nm = Some w -> w !! day = Some r ->
                writeRun_summaryFilename r <> k) ->
     cookWriteRunSummaries l files !! k = files !! k) /\
  (forall nm w day r, workloads l !! nm = Some w -> w !! day = Some r ->
     (forall nm' w' day' r', workloads l !! nm' = Some w' -> w' !! day' = Some r' ->
        writeRun_summaryFilename r' = writeRun_summaryFilename r ->
        writeRun_formatSummaryJSON r' = writeRun_formatSummaryJSON r) ->
     cookWriteRunSummaries l files !! writeRun_summaryFilename r = Some (writeRun_formatSummaryJSON r)).
Proof.
  split.
  - intros k. apply cookWriteRunSummaries_absent.
  - intros nm w day r Hn Hd Hu. apply cookWriteRunSummaries_value; [exact Hu|]. right. eauto 7.
Qed.

(** [cookWriteSummary] visits each day of the workload once, in increasing order, one summary per day, and panics iff some day's run does. *)
Theorem cookWriteSummary_per_day (w : gmap string writeRun) :
  let days := sort_Strings (map fst (map_to_list w)) in
  (Sorted (sort_ord String.ltb) days /\ NoDup days /\ forall d, In d days <-> is_Some (w !! d)) /\
  (forall ss, cookWriteSummary w = Some ss ->
     Forall2 (fun day s => exists r, w !! day = Some r /\ writeRun_summarize r = Some s) days ss) /\
  (cookWriteSummary w = None <-> exists day r, w !! day = Some r /\ writeRun_summarize r = None).
Proof.
  intros days. split; [|split].
  - destruct (sorted_days w) as [H1 H2]. split; [exact H1|]. split; [exact H2|].
    intros d. apply in_sorted_days.
  - intros ss H. rewrite cookWriteSummary_unfold in H.
    destruct (cws_fold_Some _ _ _ _ H) as (ns & -> & Hf). exact Hf.
  - rewrite cookWriteSummary_unfold. split.
    + intros H. destruct (cws_fold_None_inv _ _ _ H) as (day & Hin & Hd).
      apply in_sorted_days in Hin as [r Hr]. rewrite Hr in Hd. eauto.
    + intros (day & r & Hr & Hs).
      destruct (fold_left (cookWriteSummary_step w) days (Some [])) as [ss|] eqn:Hf; [|exact Hf].
      exfalso. destruct (cws_fold_Some _ _ _ _ Hf) as (ns & _ & H2).
      assert (Hin : In day days) by (apply in_sorted_days; eauto).
      clear Hf. induction H2 as [|d s ds ss' Hds _ IH]; [contradiction|].
      destruct Hin as [<-|Hin]; [|exact (IH Hin)].
      destruct Hds as (r' & Hr' & Hs'). congruence.
Qed.


Lemma ops_sum_map_fold (m : gmap string rawWriteRun) :
  map_fold (fun _ rr acc => acc + fst (rawWriteRun_opsPerSecSplit rr)) 0 m =
  ops_sum (map snd (map_to_list m)).
Proof.
  rewrite map_fold_foldr. induction (map_to_list m) as [|[k rr] l IH]; simpl; [reflexivity|].
  rewrite IH. lia.
Qed.

Lemma ops_sum_bounds (rs : list rawWriteRun) lo hi :
  Forall (fun rr => lo <= fst (rawWriteRun_opsPerSecSplit rr) <= hi) rs ->
  Z.of_nat (length rs) * lo <= ops_sum rs <= Z.of_nat (length rs) * hi.
Proof.
  induction 1 as [|rr rs Hrr _ IH]; simpl; [lia|]. unfold ops_sum in IH |- *. simpl. lia.
Qed.

Lemma map_values_check {A} (m : gmap string A) (f : A -> bool) :
  forallb (fun kv : string * A => f kv.2) (map_to_list m) = true ->
  forall k a, m !! k = Some a -> f a = true.
Proof.
  intros Hb k a Hk. apply elem_of_map_to_list, list_elem_of_In in Hk.
  rewrite forallb_forall in Hb. exact (Hb _ Hk).
Qed.

(** When the throughput sum fits in an int64, the summary's OpsSec lies between any lower and upper bound of the worker runs' splits. *)
Theorem summarize_opsSec_bounds (r : writeRun) (s : writeRunSummary) (lo hi : Z) :
  writeRun_summarize r = Some s ->
  int64_range (ops_sum (worker_runs r)) ->
  (forall p rr, rawRuns r !! p = Some rr -> lo <= fst (rawWriteRun_opsPerSecSplit rr) <= hi) ->
  lo <= OpsSec s <= hi.
Proof.
  intros Hs Hr Hb. unfold writeRun_summarize in Hs.
  destruct (summarize_sums (rawRuns r)) as [[a b]|] eqn:Hss; [|discriminate].
  destruct (Nat.eqb_spec (size (rawRuns r)) 0) as [_|Hn]; [discriminate|].
  injection Hs as <-. simpl.
  apply summarize_sums_ops in Hss. rewrite ops_sum_map_fold in Hss.
  fold (worker_runs r) in Hss. rewrite wrap64_id in Hss by exact Hr. subst a.
  assert (Hlen : length (worker_runs r) = size (rawRuns r)).
  { unfold worker_runs. rewrite length_map. apply length_map_to_list. }
  assert (Hf : Forall (fun rr => lo <= fst (rawWriteRun_opsPerSecSplit rr) <= hi) (worker_runs r)).
  { apply Forall_forall. intros rr Hin. unfold worker_runs in Hin.
    apply list_elem_of_In, in_map_iff in Hin as ([p rr'] & <- & Hin).
    apply list_elem_of_In, elem_of_map_to_list in Hin. exact (Hb p rr' Hin). }
  apply ops_sum_bounds in Hf. rewrite Hlen in Hf.
  set (n := Z.of_nat (size (rawRuns r))) in *.
  assert (Hn0 : 0 < n) by lia.
  split.
  - rewrite <- (Z.quot_mul lo n) by lia. apply Z.quot_le_mono; lia.
  - apply Z.quot_le_upper_bound; lia.
Qed.

Lemma summarize_opsSec_bounds_witness :
  let r := ex_run2 1000 1200 (PrimFloat.of_uint63 2%uint63) (PrimFloat.of_uint63 3%uint63) in
  writeRun_summarize r = Some (summary_of r) /\
  int64_range (ops_sum (worker_runs r)) /\
  (forall p rr, rawRuns r !! p = Some rr -> 1000 <= fst (rawWriteRun_opsPerSecSplit rr) <= 1200) /\
  1000 <= OpsSec (summary_of r) <= 1200.
Proof.
  intros r.
  assert (H1 : writeRun_summarize r = Some (summary_of r)) by (vm_compute; reflexivity).
  assert (H2 : int64_range (ops_sum (worker_runs r))).
  { assert (E : ops_sum (worker_runs r) = 2200) by (vm_compute; reflexivity).
    rewrite E. unfold int64_range, two63. lia. }
  assert (H3 : forall p rr, rawRuns r !! p = Some rr ->
                 1000 <= fst (rawWriteRun_opsPerSecSplit rr) <= 1200).
  { intros p rr Hp.
    pose proof (map_values_check (rawRuns r)
      (fun rr => (1000 <=? fst (rawWriteRun_opsPerSecSplit rr)) && (fst (rawWriteRun_opsPerSecSplit rr) <=? 1200))
      ltac:(vm_compute; reflexivity) p rr Hp) as H.
    apply andb_prop in H as [Ha Hb]. apply Z.leb_le in Ha, Hb. lia. }
  split; [exact H1|]. split; [exact H2|]. split; [exact H3|].
  exact (summarize_opsSec_bounds r (summary_of r) 1000 1200 H1 H2 H3).
Defined.


Lemma list_ascii_of_string_app (a b : string) :
  list_ascii_of_string (a +:+ b) = list_ascii_of_string a ++ list_ascii_of_string b.
Proof.
  induction a as [|x a IH]; [reflexivity|].
  transitivity (x :: list_ascii_of_string (a +:+ b)); [reflexivity|]. rewrite IH. reflexivity.
Qed.

Lemma no_comma_app (a b : string) : no_comma a -> no_comma b -> no_comma (a +:+ b).
Proof.
  unfold no_comma. rewrite list_ascii_of_string_app. intros Ha Hb Hin.
  apply in_app_or in Hin as [H|H]; contradiction.
Qed.

Lemma digit_char_not_comma (k : nat) : (k < 10)%nat -> ascii_of_nat (48 + k) <> ","%char.
Proof.
  intros Hk. do 10 (destruct k as [|k]; [discriminate|]). lia.
Qed.

Lemma no_comma_digit (n : Z) (acc : string) :
  no_comma acc -> no_comma (String (ascii_of_nat (48 + Z.to_nat (n mod 10))) acc).
Proof.
  intros Hacc [H|H]; [|exact (Hacc H)].
  revert H. apply digit_char_not_comma.
  pose proof (Z.mod_pos_bound n 10 ltac:(lia)). lia.
Qed.

Lemma no_comma_digits_aux fuel n acc : no_comma acc -> no_comma (digits_aux fuel n acc).
Proof.
  revert n acc; induction fuel as [|fuel IH]; intros n acc Hacc; simpl; [exact Hacc|].
  destruct (n <? 10); [apply no_comma_digit, Hacc|]. apply IH, no_comma_digit, Hacc.
Qed.

Lemma no_comma_digits n : no_comma (digits n).
Proof. apply no_comma_digits_aux. intros []. Qed.

Lemma no_comma_fmt_d z : no_comma (fmt_d z).
Proof.
  unfold fmt_d. destruct (z <? 0); [|apply no_comma_digits].
  intros [H|H]; [discriminate|]. exact (no_comma_digits _ H).
Qed.

Lemma no_comma_fmt_v_bool b : no_comma (fmt_v_bool b).
Proof. destruct b; simpl; intros H; repeat (destruct H as [H|H]; [discriminate|]); exact H. Qed.

Lemma no_comma_two_digits n : 0 <= n < 100 -> no_comma (two_digits n).
Proof.
  intros Hn [H|[H|[]]]; revert H; apply digit_char_not_comma.
  - assert (0 <= n / 10 < 10) by (split; [apply Z.div_pos | apply Z.div_lt_upper_bound]; lia). lia.
  - pose proof (Z.mod_pos_bound n 10 ltac:(lia)). lia.
Qed.

Lemma no_comma_fmt_2f x : no_comma (fmt_2f x).
Proof.
  unfold fmt_2f. destruct (Prim2SF x) as [s|s| |s m e].
  - destruct s; simpl; intros H; repeat (destruct H as [H|H]; [discriminate|]); exact H.
  - destruct s; simpl; intros H; repeat (destruct H as [H|H]; [discriminate|]); exact H.
  - simpl; intros H; repeat (destruct H as [H|H]; [discriminate|]); exact H.
  - apply no_comma_app; [destruct s; simpl; intros H; repeat (destruct H as [H|H]; [discriminate|]); exact H|].
    apply no_comma_app; [apply no_comma_digits|].
    apply no_comma_app; [intros [H|[]]; discriminate|].
    apply no_comma_two_digits. apply Z.mod_pos_bound. lia.
Qed.

Lemma split_on_no_sep (c : ascii) (a : string) :
  ~ In c (list_ascii_of_string a) -> split_on c a = [a].
Proof.
  induction a as [|x a IH]; intros H; [reflexivity|]. simpl.
  destruct (Ascii.eqb_spec x c) as [->|Hne]; [exfalso; apply H; left; reflexivity|].
  rewrite IH; [reflexivity|]. intros Hin. apply H. right. exact Hin.
Qed.

Lemma split_on_sep (c : ascii) (a b : string) :
  ~ In c (list_ascii_of_string a) -> split_on c (a +:+ String c EmptyString +:+ b) = a :: split_on c b.
Proof.
  change (String c EmptyString +:+ b) with (String c b).
  induction a as [|x a IH]; intros H.
  - simpl. rewrite Ascii.eqb_refl. reflexivity.
  - transitivity (split_on c (String x (a +:+ String c b))); [reflexivity|]. simpl.
    destruct (Ascii.eqb_spec x c) as [->|Hne]; [exfalso; apply H; left; reflexivity|].
    rewrite IH; [reflexivity|]. intros Hin. apply H. right. exact Hin.
Qed.

(** A sample's CSV row splits at its commas into exactly its six formatted fields. *)
Theorem writePoint_formatCSV_fields (p : writePoint) :
  split_on "," (writePoint_formatCSV p) =
  [fmt_d (elapsedSecs p); fmt_d (opsSec p); fmt_v_bool (passed p);
   fmt_d (size_ p); fmt_d (levels p); fmt_2f (writeAmp p)].
Proof.
  unfold writePoint_formatCSV.
  rewrite !split_on_sep by apply no_comma_fmt_d || apply no_comma_fmt_v_bool.
  rewrite split_on_no_sep by apply no_comma_fmt_2f. reflexivity.
Qed.


(** [addRawRun] ignores a run without samples; otherwise it files the samples under (name, day, path), leaving every other path and every other day as it was. *)
Theorem addRawRun_lookup (nm day path : string) (raw : rawWriteRun) (l : writeLoader)
    (nm' day' path' : string) :
  (points raw = [] -> addRawRun nm day path raw l = l) /\
  (points raw <> [] ->
     run_points (addRawRun nm day path raw l) nm' day' path' =
     if bool_decide (nm' = nm /\ day' = day /\ path' = path) then Some (points raw)
     else run_points l nm' day' path') /\
  (day' <> day ->
     run_at (workloads (addRawRun nm day path raw l)) nm' day' = run_at (workloads l) nm' day').
Proof.
  split; [|split].
  - intros H. unfold addRawRun. rewrite H. reflexivity.
  - apply addRawRun_points_at.
  - apply addRawRun_run_at_other.
Qed.







Lemma walkFn_files_samples_witness :
  let lines := [ex_line "1000" "5s" "2.000000"] in
  file_day ex_file1 = Some "2023-01-01" /\ file_lines ex_file1 = Some lines /\
  ((first_name go_sscanf_rawRun lines, "2023-01-01") ∉ cooked newWriteLoader) /\
  (("", "2023-01-01") ∉ cooked newWriteLoader) /\
  flat_map (line_point go_sscanf_rawRun go_parseDuration_secs) lines <> [] /\
  (let pts := flat_map (line_point go_sscanf_rawRun go_parseDuration_secs) lines in
   (pts = [] -> workloads (walkFn go_sscanf_rawRun go_parseDuration_secs newWriteLoader ex_file1) =
                workloads newWriteLoader) /\
   (pts <> [] ->
      run_points (walkFn go_sscanf_rawRun go_parseDuration_secs newWriteLoader ex_file1)
        (first_name go_sscanf_rawRun lines) "2023-01-01" (pathRel ex_file1) = Some pts)).
Proof.
  intros lines.
  assert (H1 : file_day ex_file1 = Some "2023-01-01") by (vm_compute; reflexivity).
  assert (H2 : file_lines ex_file1 = Some lines) by reflexivity.
  assert (H3 : (first_name go_sscanf_rawRun lines, "2023-01-01") ∉ cooked newWriteLoader)
    by apply not_elem_of_empty.
  assert (H4 : ("", "2023-01-01") ∉ cooked newWriteLoader) by apply not_elem_of_empty.
  split; [exact H1|]. split; [exact H2|]. split; [exact H3|]. split; [exact H4|].
  split; [vm_compute; discriminate|].
  exact (walkFn_files_samples go_sscanf_rawRun go_parseDuration_secs newWriteLoader ex_file1
           "2023-01-01" lines H1 H2 H3 H4).
Defined.

Lemma walkFn_skips_cooked_witness :
  let f := ex_file "2022-12-31" "1" [ex_line "1000" "5s" "2.000000"] in
  let lines := [ex_line "1000" "5s" "2.000000"] in
  file_day f = Some "2022-12-31" /\ file_lines f = Some lines /\
  first_name go_sscanf_rawRun lines <> "" /\
  ((first_name go_sscanf_rawRun lines, "2022-12-31") ∈ cooked ex_cooked_loader) /\
  workloads (walkFn go_sscanf_rawRun go_parseDuration_secs ex_cooked_loader f) = workloads ex_cooked_loader /\
  exists n, last (stderr (walkFn go_sscanf_rawRun go_parseDuration_secs ex_cooked_loader f)) =
            Some (DSkipCooked (pathRel f) n "2022-12-31").
Proof.
  intros f lines.
  assert (H1 : file_day f = Some "2022-12-31") by (vm_compute; reflexivity).
  assert (H2 : file_lines f = Some lines) by reflexivity.
  assert (H3 : first_name go_sscanf_rawRun lines <> "") by (vm_compute; discriminate).
  assert (H4 : (first_name go_sscanf_rawRun lines, "2022-12-31") ∈ cooked ex_cooked_loader).
  { assert (E : bool_decide ((first_name go_sscanf_rawRun lines, "2022-12-31") ∈ cooked ex_cooked_loader) = true)
      by (vm_compute; reflexivity).
    exact (bool_decide_eq_true_1 _ E). }
  split; [exact H1|]. split; [exact H2|]. split; [exact H3|]. split; [exact H4|].
  exact (walkFn_skips_cooked go_sscanf_rawRun go_parseDuration_secs ex_cooked_loader f
           "2022-12-31" lines H1 H2 H3 H4).
Defined.

Lemma loadRaw_file_samples_witness :
  let lines := [ex_line "1000" "5s" "2.000000"] in
  NoDup (map pathRel ex_files) /\ In ex_file1 ex_files /\
  file_day ex_file1 = Some "2023-01-01" /\ file_lines ex_file1 = Some lines /\
  ((first_name go_sscanf_rawRun lines, "2023-01-01") ∉ cooked newWriteLoader) /\
  (("", "2023-01-01") ∉ cooked newWriteLoader) /\
  flat_map (line_point go_sscanf_rawRun go_parseDuration_secs) lines <> [] /\
  run_points (loadRaw go_sscanf_rawRun go_parseDuration_secs ex_files newWriteLoader)
    (first_name go_sscanf_rawRun lines) "2023-01-01" (pathRel ex_file1) =
  Some (flat_map (line_point go_sscanf_rawRun go_parseDuration_secs) lines).
Proof.
  intros lines.
  assert (H0 : NoDup (map pathRel ex_files)).
  { assert (E : bool_decide (NoDup (map pathRel ex_files)) = true) by (vm_compute; reflexivity).
    exact (bool_decide_eq_true_1 _ E). }
  assert (Hin : In ex_file1 ex_files) by (left; reflexivity).
  assert (H1 : file_day ex_file1 = Some "2023-01-01") by (vm_compute; reflexivity).
  assert (H2 : file_lines ex_file1 = Some lines) by reflexivity.
  assert (H3 : (first_name go_sscanf_rawRun lines, "2023-01-01") ∉ cooked newWriteLoader)
    by apply not_elem_of_empty.
  assert (H4 : ("", "2023-01-01") ∉ cooked newWriteLoader) by apply not_elem_of_empty.
  assert (H5 : flat_map (line_point go_sscanf_rawRun go_parseDuration_secs) lines <> [])
    by (vm_compute; discriminate).
  split; [exact H0|]. split; [exact Hin|]. split; [exact H1|]. split; [exact H2|].
  split; [exact H3|]. split; [exact H4|]. split; [exact H5|].
  exact (loadRaw_file_samples go_sscanf_rawRun go_parseDuration_secs ex_files newWriteLoader ex_file1
           "2023-01-01" lines H0 Hin H1 H2 H3 H4 H5).
Defined.

Lemma cookSummary_domain_witness :
  let l := loadRaw go_sscanf_rawRun go_parseDuration_secs ex_files ex_cooked_loader in
  let m := ok_or ∅ (cookSummary l) in
  cookSummary l = ROk m /\
  forall nm,
    (is_Some (m !! nm) <-> is_Some (workloads l !! nm) \/ is_Some (cookedSummaries l !! nm)) /\
    (workloads l !! nm = None -> m !! nm = cookedSummaries l !! nm) /\
    (cookedSummaries l !! nm = None -> m !! nm = workloads l !! nm ≫= cookWriteSummary).
Proof.
  intros l m.
  assert (H : cookSummary l = ROk m) by (vm_compute; reflexivity).
  split; [exact H|].
  exact (cookSummary_domain l m H).
Defined.



Lemma split_on_cons_ne (c : ascii) (s : string) : split_on c s <> [].
Proof.
  destruct s as [|a s]; simpl; [discriminate|].
  destruct (Ascii.eqb a c); [discriminate|]. destruct (split_on c s); discriminate.
Qed.

Lemma join_split_slash (s x : string) :
  join "-" (split_on "/" s ++ [x]) = slash_to_dash s +:+ "-" +:+ x.
Proof.
  unfold join. induction s as [|a s IH]; [reflexivity|].
  simpl split_on. destruct (Ascii.eqb_spec a "/") as [->|Hne].
  - transitivity ("" +:+ "-" +:+ String.concat "-" (split_on "/" s ++ [x])).
    { destruct (split_on "/" s); reflexivity. }
    rewrite IH. reflexivity.
  - pose proof (split_on_cons_ne "/" s) as Hne'.
    destruct (split_on "/" s) as [|h t] eqn:Hs; [contradiction|].
    transitivity (String a (String.concat "-" ((h :: t) ++ [x]))).
    { destruct t; reflexivity. }
    rewrite IH. simpl slash_to_dash. destruct (Ascii.eqb_spec a "/"); [contradiction|]. reflexivity.
Qed.

Lemma slash_to_dash_no_slash (s : string) : ~ In "/"%char (list_ascii_of_string (slash_to_dash s)).
Proof.
  induction s as [|a s IH]; simpl; [auto|]. intros [H|H]; [|contradiction].
  destruct (Ascii.eqb_spec a "/"); [discriminate|congruence].
Qed.

(** A run's detail file name is its directory with each slash replaced by a dash, followed by -summary.json; it contains no slash. *)
Theorem summaryFilename_shape (r : writeRun) :
  writeRun_summaryFilename r = slash_to_dash (dir r) +:+ "-summary.json" /\
  ~ In "/"%char (list_ascii_of_string (writeRun_summaryFilename r)).
Proof.
  unfold writeRun_summaryFilename. rewrite join_split_slash. split; [reflexivity|].
  rewrite list_ascii_of_string_app. intros Hin. apply in_app_or in Hin as [H|H].
  - exact (slash_to_dash_no_slash _ H).
  - simpl in H. repeat (destruct H as [H|H]; [discriminate|]). exact H.
Qed.
